(** * A shallow embedding of [hindi_ekta_shangh_website.jsx]

    The page is one React component, [App], whose whole state is

    - [data]: the persisted document (name, description, members, ideas),
      kept in [localStorage] by the hook [useLocalStorageState];
    - [memberForm] and [ideaForm]: two transient input forms.

    Every event handler of the component is translated into a function on
    that state.  What a handler reads from its environment (the clock
    behind [Date.now()], the answer of [confirm], the result of a
    [FileReader]) is an explicit argument; what it shows ([alert],
    [confirm]) is returned next to the new state.

    A handler is run on the state of the latest render, that is, events
    are handled one after the other with a render in between (React
    flushes the updates of a discrete event before it dispatches the
    next one).

    The hook goes through [JSON.stringify], [localStorage] and
    [JSON.parse].  These belong to the platform; they are modelled here
    after ECMA-262 on strings of UTF-16 code units, so that what is saved
    can be loaded again by computation.

    The file has the definitions first (strings, the data model, the
    handlers, JSON, the store and the hook, the sessions used as
    examples, the view, the file inputs, the item buttons and the export)
    and the properties after them. *)

From Stdlib Require Import ZArith NArith String Ascii Lia.
From stdpp Require Import base list gmap.

Set Default Proof Using "Type".
Set Warnings "-register-all".

(* ================================================================== *)
(** * JavaScript strings *)
(* ================================================================== *)

(** A JavaScript string is a sequence of UTF-16 code units.  A code unit
    is kept as an [N]; nothing below needs the bound [< 2^16]. *)
Definition jsstring := list N.

(** ASCII literals of the source, written as Rocq strings. *)
Fixpoint u16 (s : string) : jsstring :=
  match s with
  | EmptyString => []
  | String a s' => N_of_ascii a :: u16 s'
  end.
Arguments u16 s%_string.

(** [WhiteSpace] and [LineTerminator] of ECMA-262, the code units that
    [String.prototype.trim] strips: TAB, LF, VT, FF, CR, SP, NBSP,
    U+1680, U+2000..U+200A, LS, PS, U+202F, U+205F, U+3000, U+FEFF. *)
Definition isWhiteSpace (c : N) : bool :=
  ((9 <=? c) && (c <=? 13) || (c =? 32) || (c =? 160) || (c =? 0x1680)
   || (0x2000 <=? c) && (c <=? 0x200a) || (c =? 0x2028) || (c =? 0x2029)
   || (c =? 0x202f) || (c =? 0x205f) || (c =? 0x3000) || (c =? 0xfeff))%N.

Fixpoint trimStart (s : jsstring) : jsstring :=
  match s with
  | [] => []
  | c :: s' => if isWhiteSpace c then trimStart s' else s
  end.

Definition trimEnd (s : jsstring) : jsstring := reverse (trimStart (reverse s)).

(** [s.trim()] *)
Definition trim (s : jsstring) : jsstring := trimEnd (trimStart s).

(** [ToBoolean] on a string: only the empty string is falsy. *)
Definition truthy (s : jsstring) : bool :=
  match s with [] => false | _ :: _ => true end.

(** [s || null] on a string [s]; [None] stands for [null]. *)
Definition or_null (s : jsstring) : option jsstring :=
  if truthy s then Some s else None.

(* ================================================================== *)
(** * The data model *)
(* ================================================================== *)

(** A member, with the fields [addMember] gives it. *)
Record Member := mkMember {
  m_id : Z;
  m_name : jsstring;
  m_position : jsstring;
  m_work : jsstring;
  m_photo : option jsstring
}.

(** An idea, with the fields [submitIdea] gives it.  [status] is a string
    in the source and stays one here. *)
Record Idea := mkIdea {
  i_id : Z;
  i_title : jsstring;
  i_description : jsstring;
  i_image : option jsstring;
  i_status : jsstring;
  i_submittedAt : jsstring
}.

(** The object kept under [LS_KEY]. *)
Record Document := mkDocument {
  sanghName : jsstring;
  description : jsstring;
  members : list Member;
  ideas : list Idea
}.

Record MemberForm := mkMemberForm {
  mf_name : jsstring;
  mf_position : jsstring;
  mf_work : jsstring;
  mf_photoDataUrl : jsstring
}.

Record IdeaForm := mkIdeaForm {
  if_title : jsstring;
  if_description : jsstring;
  if_imageDataUrl : jsstring
}.

(** The three [useState] cells of [App]. *)
Record App := mkApp {
  data : Document;
  memberForm : MemberForm;
  ideaForm : IdeaForm
}.

(** The two status strings the source writes and tests. *)
Definition Open : jsstring := u16 "Open".
Definition ActionTaken : jsstring := u16 "Action Taken".

(** String literals of the source that are not ASCII, as code units. *)
Definition seed_sanghName : jsstring :=
  [2361; 2367; 2306; 2342; 2368; 32; 2319; 2325; 2340; 2366; 32; 2358;
   2366; 2306; 2327]%N.

Definition seed_description : jsstring :=
  [2361; 2350; 2366; 2352; 2368; 32; 2358; 2366; 2306; 2327; 32; 2325;
   2366; 32; 2313; 2342; 2381; 2342; 2375; 2358; 2381; 2351; 32; 2360;
   2381; 2341; 2366; 2344; 2368; 2351; 32; 2360; 2369; 2352; 2325; 2381;
   2359; 2366; 32; 2324; 2352; 32; 2360; 2366; 2350; 2369; 2342; 2366;
   2351; 2367; 2325; 32; 2360; 2361; 2351; 2379; 2327; 32; 2348; 2338;
   2364; 2366; 2344; 2366; 32; 2361; 2376; 2404]%N.

Definition msg_name_required : jsstring :=
  [2325; 2371; 2346; 2351; 2366; 32; 2344; 2366; 2350; 32; 2337; 2366;
   2354; 2375; 2306]%N.

Definition msg_title_required : jsstring :=
  [2325; 2371; 2346; 2351; 2366; 32; 2357; 2367; 2330; 2366; 2352; 32;
   2325; 2366; 32; 2358; 2368; 2352; 2381; 2359; 2325; 32; 2337; 2366;
   2354; 2375; 2306]%N.

Definition msg_confirm_remove : jsstring :=
  [2325; 2381; 2351; 2366; 32; 2310; 2346; 32; 2360; 2369; 2344; 2367;
   2358; 2381; 2330; 2367; 2340; 32; 2361; 2376; 2306; 32; 2325; 2367; 32;
   2360; 2342; 2360; 2381; 2351; 32; 2361; 2335; 2366; 2344; 2366; 32;
   2330; 2366; 2361; 2340; 2375; 32; 2361; 2376; 2306; 63]%N.

(** The second argument of [useLocalStorageState] in [App]. *)
Definition seed : Document :=
  {| sanghName := seed_sanghName; description := seed_description;
     members := []; ideas := [] |}.

(** The initial values of the two form cells. *)
Definition emptyMemberForm : MemberForm :=
  {| mf_name := []; mf_position := []; mf_work := []; mf_photoDataUrl := [] |}.

Definition emptyIdeaForm : IdeaForm :=
  {| if_title := []; if_description := []; if_imageDataUrl := [] |}.

(** The component right after mounting on document [d]. *)
Definition mount (d : Document) : App :=
  {| data := d; memberForm := emptyMemberForm; ideaForm := emptyIdeaForm |}.

(* ================================================================== *)
(** * State setters and object spreads *)
(* ================================================================== *)

(** [setData((d) => f d)] *)
Definition setData (f : Document -> Document) (a : App) : App :=
  {| data := f (data a); memberForm := memberForm a; ideaForm := ideaForm a |}.

(** [setMemberForm((m) => f m)]; [setMemberForm(v)] is [setMemberForm (fun _ => v)]. *)
Definition setMemberForm (f : MemberForm -> MemberForm) (a : App) : App :=
  {| data := data a; memberForm := f (memberForm a); ideaForm := ideaForm a |}.

Definition setIdeaForm (f : IdeaForm -> IdeaForm) (a : App) : App :=
  {| data := data a; memberForm := memberForm a; ideaForm := f (ideaForm a) |}.

(** [{ ...d, members: ms }] and its siblings. *)
Definition with_members (ms : list Member) (d : Document) : Document :=
  {| sanghName := sanghName d; description := description d;
     members := ms; ideas := ideas d |}.

Definition with_ideas (ideas' : list Idea) (d : Document) : Document :=
  {| sanghName := sanghName d; description := description d;
     members := members d; ideas := ideas' |}.

Definition with_sanghName (v : jsstring) (d : Document) : Document :=
  {| sanghName := v; description := description d;
     members := members d; ideas := ideas d |}.

Definition with_description (v : jsstring) (d : Document) : Document :=
  {| sanghName := sanghName d; description := v;
     members := members d; ideas := ideas d |}.

(** [{ ...i, status: s }] *)
Definition with_status (s : jsstring) (i : Idea) : Idea :=
  {| i_id := i_id i; i_title := i_title i; i_description := i_description i;
     i_image := i_image i; i_status := s; i_submittedAt := i_submittedAt i |}.

(* ================================================================== *)
(** * The event handlers *)
(* ================================================================== *)

(** What a handler shows to the user. *)
Inductive dialog :=
| Alert (msg : jsstring)
| Confirm (msg : jsstring).

(** The object literal [newMember] of [addMember], built from the form of
    the current render. *)
Definition newMember (now : Z) (f : MemberForm) : Member :=
  {| m_id := now;
     m_name := mf_name f;
     m_position := mf_position f;
     m_work := mf_work f;
     m_photo := or_null (mf_photoDataUrl f) |}.

(** The object literal [newIdea] of [submitIdea]. *)
Definition newIdea (now : Z) (iso : jsstring) (f : IdeaForm) : Idea :=
  {| i_id := now;
     i_title := if_title f;
     i_description := if_description f;
     i_image := or_null (if_imageDataUrl f);
     i_status := Open;
     i_submittedAt := iso |}.

(** [addMember(e)].  [now] is what [Date.now()] returns.
    [e.preventDefault()] touches no state of the component. *)
Definition addMember (now : Z) (a : App) : App * list dialog :=
  if negb (truthy (trim (mf_name (memberForm a)))) then
    (a, [Alert msg_name_required])
  else
    let newMember := newMember now (memberForm a) in
    (setMemberForm (fun _ => emptyMemberForm)
       (setData (fun d => with_members (members d ++ [newMember]) d) a),
     []).

(** [submitIdea(e)].  [now] is what [Date.now()] returns and [iso] what
    [new Date().toISOString()] returns; they are two readings of the
    clock. *)
Definition submitIdea (now : Z) (iso : jsstring) (a : App) : App * list dialog :=
  if negb (truthy (trim (if_title (ideaForm a)))) then
    (a, [Alert msg_title_required])
  else
    let newIdea := newIdea now iso (ideaForm a) in
    (setIdeaForm (fun _ => emptyIdeaForm)
       (setData (fun d => with_ideas (newIdea :: ideas d) d) a),
     []).

(** The arrow function mapped over [d.ideas] by [takeActionOnIdea]. *)
Definition mark (id : Z) (i : Idea) : Idea :=
  if (i_id i =? id)%Z then with_status ActionTaken i else i.

(** [takeActionOnIdea(id)], the [markActionTaken] of the specification. *)
Definition takeActionOnIdea (id : Z) (a : App) : App :=
  setData (fun d => with_ideas (mark id <$> ideas d) d) a.

(** [removeMember(id)].  [answer] is what [confirm] returns. *)
Definition removeMember (id : Z) (answer : bool) (a : App) : App * list dialog :=
  if negb answer then (a, [Confirm msg_confirm_remove])
  else
    (setData (fun d => with_members (filter (fun m => m_id m ≠ id) (members d)) d) a,
     [Confirm msg_confirm_remove]).

(** Everything that can happen to the mounted component: the [onChange]
    of the two header fields and of the fields of the two forms, the
    [onload] of the two file readers, the two cancel buttons, the
    [onSubmit] of the two forms, the two item buttons and the export
    button.  (The first file input of the member form sets
    [photoDataUrl] to itself and so changes nothing; it has no event
    here.  The two item buttons sit inside the forms without
    [type="button"], so a click on one of them is its event followed by
    the submission of the form: two events of a session.) *)
Inductive event :=
| EditSanghName (v : jsstring)
| EditDescription (v : jsstring)
| EditMemberName (v : jsstring)
| EditMemberPosition (v : jsstring)
| EditMemberWork (v : jsstring)
| MemberPhotoLoaded (v : jsstring)
| CancelMemberForm
| EditIdeaTitle (v : jsstring)
| EditIdeaDescription (v : jsstring)
| IdeaImageLoaded (v : jsstring)
| CancelIdeaForm
| SubmitMember (now : Z)
| SubmitIdea (now : Z) (iso : jsstring)
| TakeAction (id : Z)
| RemoveMember (id : Z) (answer : bool)
| ExportData.

Definition handle (e : event) (a : App) : App :=
  match e with
  | EditSanghName v => setData (with_sanghName v) a
  | EditDescription v => setData (with_description v) a
  | EditMemberName v =>
      setMemberForm (fun m => {| mf_name := v; mf_position := mf_position m;
                                 mf_work := mf_work m;
                                 mf_photoDataUrl := mf_photoDataUrl m |}) a
  | EditMemberPosition v =>
      setMemberForm (fun m => {| mf_name := mf_name m; mf_position := v;
                                 mf_work := mf_work m;
                                 mf_photoDataUrl := mf_photoDataUrl m |}) a
  | EditMemberWork v =>
      setMemberForm (fun m => {| mf_name := mf_name m;
                                 mf_position := mf_position m; mf_work := v;
                                 mf_photoDataUrl := mf_photoDataUrl m |}) a
  | MemberPhotoLoaded v =>
      setMemberForm (fun m => {| mf_name := mf_name m;
                                 mf_position := mf_position m;
                                 mf_work := mf_work m;
                                 mf_photoDataUrl := v |}) a
  | CancelMemberForm => setMemberForm (fun _ => emptyMemberForm) a
  | EditIdeaTitle v =>
      setIdeaForm (fun s => {| if_title := v;
                               if_description := if_description s;
                               if_imageDataUrl := if_imageDataUrl s |}) a
  | EditIdeaDescription v =>
      setIdeaForm (fun s => {| if_title := if_title s; if_description := v;
                               if_imageDataUrl := if_imageDataUrl s |}) a
  | IdeaImageLoaded v =>
      setIdeaForm (fun s => {| if_title := if_title s;
                               if_description := if_description s;
                               if_imageDataUrl := v |}) a
  | CancelIdeaForm => setIdeaForm (fun _ => emptyIdeaForm) a
  | SubmitMember now => (addMember now a).1
  | SubmitIdea now iso => (submitIdea now iso a).1
  | TakeAction id => takeActionOnIdea id a
  | RemoveMember id answer => (removeMember id answer a).1
  | ExportData => a
  end.

(** A session: the events in the order they are handled. *)
Definition run (tr : list event) (a : App) : App := foldl (fun s e => handle e s) a tr.

(** [addMember] and [submitIdea] read [Date.now()] once the form has
    passed the check, and only then.  The reading an event takes for the
    id of a member, and for the id of an idea, in state [a]. *)
Definition member_reading (e : event) (a : App) : option Z :=
  match e with
  | SubmitMember now =>
      if truthy (trim (mf_name (memberForm a))) then Some now else None
  | _ => None
  end.

Definition idea_reading (e : event) (a : App) : option Z :=
  match e with
  | SubmitIdea now _ =>
      if truthy (trim (if_title (ideaForm a))) then Some now else None
  | _ => None
  end.

(** The readings taken along a session started in state [a], in order. *)
Fixpoint member_readings (tr : list event) (a : App) : list Z :=
  match tr with
  | [] => []
  | e :: tr' =>
      match member_reading e a with
      | Some now => now :: member_readings tr' (handle e a)
      | None => member_readings tr' (handle e a)
      end
  end.

Fixpoint idea_readings (tr : list event) (a : App) : list Z :=
  match tr with
  | [] => []
  | e :: tr' =>
      match idea_reading e a with
      | Some now => now :: idea_readings tr' (handle e a)
      | None => idea_readings tr' (handle e a)
      end
  end.

(* ================================================================== *)
(** * JavaScript values that JSON can carry *)
(* ================================================================== *)

(** What [JSON.parse] returns and what [JSON.stringify] is given here.
    Numbers are kept exact: [VInt z] is a Number whose value is the
    integer [z], and [VDec m e], with [e < 0] and [m] not a multiple of
    10, is the Number [m * 10^e].  (A JavaScript Number is a double; the
    two agree on the integers up to [2^53], which include every reading
    of [Date.now()].)  The pairs of an object are in property order, which
    for the names used in this program is the order of insertion. *)
Inductive value :=
| VNull
| VBool (b : bool)
| VInt (z : Z)
| VDec (m e : Z)
| VStr (s : jsstring)
| VArr (xs : list value)
| VObj (kvs : list (jsstring * value)).

(** [null] for an absent image, the string otherwise. *)
Definition of_nullable (o : option jsstring) : value :=
  match o with
  | Some s => VStr s
  | None => VNull
  end.

(** The objects of the data model as JavaScript values, with their
    properties in the order the object literals of the source list them
    (a spread keeps the order of the object it copies). *)
Definition Member_to_value (m : Member) : value :=
  VObj [ (u16 "id", VInt (m_id m));
         (u16 "name", VStr (m_name m));
         (u16 "position", VStr (m_position m));
         (u16 "work", VStr (m_work m));
         (u16 "photo", of_nullable (m_photo m)) ].

Definition Idea_to_value (i : Idea) : value :=
  VObj [ (u16 "id", VInt (i_id i));
         (u16 "title", VStr (i_title i));
         (u16 "description", VStr (i_description i));
         (u16 "image", of_nullable (i_image i));
         (u16 "status", VStr (i_status i));
         (u16 "submittedAt", VStr (i_submittedAt i)) ].

Definition Document_to_value (d : Document) : value :=
  VObj [ (u16 "sanghName", VStr (sanghName d));
         (u16 "description", VStr (description d));
         (u16 "members", VArr (Member_to_value <$> members d));
         (u16 "ideas", VArr (Idea_to_value <$> ideas d)) ].

(** Reading a property, [o.k]; [None] is [undefined]. *)
Fixpoint get_property (k : jsstring) (kvs : list (jsstring * value)) : option value :=
  match kvs with
  | [] => None
  | (k', v) :: kvs' => if decide (k' = k) then Some v else get_property k kvs'
  end.

Definition get (k : jsstring) (v : value) : option value :=
  match v with
  | VObj kvs => get_property k kvs
  | _ => None
  end.

(** Reading a value back as an object of the data model. *)
Definition as_string (v : value) : option jsstring :=
  match v with VStr s => Some s | _ => None end.

Definition as_int (v : value) : option Z :=
  match v with VInt z => Some z | _ => None end.

Definition as_nullable (v : value) : option (option jsstring) :=
  match v with
  | VNull => Some None
  | VStr s => Some (Some s)
  | _ => None
  end.

Definition as_array (v : value) : option (list value) :=
  match v with VArr xs => Some xs | _ => None end.

Definition Member_of_value (v : value) : option Member :=
  id ← get (u16 "id") v ≫= as_int;
  name ← get (u16 "name") v ≫= as_string;
  position ← get (u16 "position") v ≫= as_string;
  work ← get (u16 "work") v ≫= as_string;
  photo ← get (u16 "photo") v ≫= as_nullable;
  Some (mkMember id name position work photo).

Definition Idea_of_value (v : value) : option Idea :=
  id ← get (u16 "id") v ≫= as_int;
  title ← get (u16 "title") v ≫= as_string;
  descr ← get (u16 "description") v ≫= as_string;
  image ← get (u16 "image") v ≫= as_nullable;
  status ← get (u16 "status") v ≫= as_string;
  submittedAt ← get (u16 "submittedAt") v ≫= as_string;
  Some (mkIdea id title descr image status submittedAt).

Definition Document_of_value (v : value) : option Document :=
  name ← get (u16 "sanghName") v ≫= as_string;
  descr ← get (u16 "description") v ≫= as_string;
  ms ← (get (u16 "members") v ≫= as_array) ≫= mapM Member_of_value;
  ideas' ← (get (u16 "ideas") v ≫= as_array) ≫= mapM Idea_of_value;
  Some (mkDocument name descr ms ideas').

(* ================================================================== *)
(** * [JSON.stringify] *)
(* ================================================================== *)

(** ** Strings: [QuoteJSONString] *)

(** The hexadecimal digit of [d < 16], in lower case. *)
Definition hex_digit (d : N) : N := (if d <? 10 then 48 + d else 87 + d)%N.

(** [\uXXXX] for the code unit [c]. *)
Definition unicode_escape (c : N) : jsstring :=
  [92; 117; hex_digit (c / 16 / 16 / 16 mod 16); hex_digit (c / 16 / 16 mod 16);
   hex_digit (c / 16 mod 16); hex_digit (c mod 16)]%N.

Definition is_lead (c : N) : bool := ((0xd800 <=? c) && (c <=? 0xdbff))%N.
Definition is_trail (c : N) : bool := ((0xdc00 <=? c) && (c <=? 0xdfff))%N.

Definition starts_with_trail (s : jsstring) : bool :=
  match s with
  | c :: _ => is_trail c
  | [] => false
  end.

(** A code unit that is not a surrogate: the short escapes for backspace,
    tab, line feed, form feed, carriage return, the double quote and the
    backslash; [\u00XX] for the other control characters; the unit
    itself otherwise. *)
Definition quote_unit (c : N) : jsstring :=
  (if c =? 8 then [92; 98]
   else if c =? 9 then [92; 116]
   else if c =? 10 then [92; 110]
   else if c =? 12 then [92; 102]
   else if c =? 13 then [92; 114]
   else if c =? 34 then [92; 34]
   else if c =? 92 then [92; 92]
   else if c <? 32 then unicode_escape c
   else [c])%N.

(** The string is read by code points: a leading surrogate followed by a
    trailing one is a pair and is copied; a surrogate on its own is
    escaped.  [paired] tells that the unit before was the leading half of
    a pair. *)
Fixpoint quote_units (paired : bool) (s : jsstring) : jsstring :=
  match s with
  | [] => []
  | c :: s' =>
      if is_lead c then
        if starts_with_trail s' then c :: quote_units true s'
        else unicode_escape c ++ quote_units false s'
      else if is_trail c then
        if paired then c :: quote_units false s'
        else unicode_escape c ++ quote_units false s'
      else quote_unit c ++ quote_units false s'
  end.

Definition QuoteJSONString (s : jsstring) : jsstring :=
  34%N :: quote_units false s ++ [34%N].

(** ** Numbers: [Number::toString] *)

(** The decimal digits of [n], most significant first; [fuel] bounds the
    number of digits. *)
Fixpoint digits_fuel (fuel : nat) (n : N) (acc : jsstring) : jsstring :=
  match fuel with
  | O => acc
  | S fuel' =>
      let acc' := (48 + n mod 10)%N :: acc in
      if (n / 10 =? 0)%N then acc' else digits_fuel fuel' (n / 10) acc'
  end.

Definition digits (n : N) : jsstring :=
  digits_fuel (S (N.to_nat (N.log2 n))) n [].

Fixpoint drop_zeros (s : jsstring) : jsstring :=
  match s with
  | [] => []
  | c :: s' => if (c =? 48)%N then drop_zeros s' else s
  end.

Definition strip_trailing_zeros (ds : jsstring) : jsstring :=
  reverse (drop_zeros (reverse ds)).

(** [d.ddde+x]: the digits [ds] with the point after the first one and
    the exponent [n - 1]. *)
Definition exponent_form (ds : jsstring) (n : Z) : jsstring :=
  match ds with
  | [] => []
  | d :: ds' =>
      d :: match ds' with [] => [] | _ :: _ => 46%N :: ds' end
        ++ 101%N :: (if (n - 1 <? 0)%Z then 45%N else 43%N)
        :: digits (Z.abs_N (n - 1))
  end.

(** The number whose significant digits are [ds] (no trailing zero) and
    whose value is [0.ds * 10^n]. *)
Definition digits_to_string (ds : jsstring) (n : Z) : jsstring :=
  let k := Z.of_nat (length ds) in
  (if (k <=? n)%Z && (n <=? 21)%Z then ds ++ replicate (Z.to_nat (n - k)) 48%N
   else if (0 <? n)%Z && (n <=? 21)%Z then
     take (Z.to_nat n) ds ++ 46%N :: drop (Z.to_nat n) ds
   else if (-6 <? n)%Z && (n <=? 0)%Z then
     48%N :: 46%N :: replicate (Z.to_nat (- n)) 48%N ++ ds
   else exponent_form ds n).

Definition minus_sign (z : Z) : jsstring := if (z <? 0)%Z then [45%N] else [].

(** An integer below [10^21] is written with all its digits. *)
Definition int_to_string (z : Z) : jsstring :=
  if (Z.abs z <? 10 ^ 21)%Z then minus_sign z ++ digits (Z.abs_N z)
  else
    minus_sign z
      ++ exponent_form (strip_trailing_zeros (digits (Z.abs_N z)))
           (Z.of_nat (length (digits (Z.abs_N z)))).

Definition dec_to_string (m e : Z) : jsstring :=
  minus_sign m
    ++ digits_to_string (digits (Z.abs_N m))
         (Z.of_nat (length (digits (Z.abs_N m))) + e).

(** ** Values: [SerializeJSONProperty] *)

Fixpoint JSON_stringify (v : value) : jsstring :=
  match v with
  | VNull => u16 "null"
  | VBool true => u16 "true"
  | VBool false => u16 "false"
  | VInt z => int_to_string z
  | VDec m e => dec_to_string m e
  | VStr s => QuoteJSONString s
  | VArr xs =>
      match xs with
      | [] => u16 "[]"
      | x :: xs' =>
          91%N :: JSON_stringify x
            ++ (fix more (l : list value) : jsstring :=
                  match l with
                  | [] => []
                  | y :: l' => 44%N :: JSON_stringify y ++ more l'
                  end) xs'
            ++ [93%N]
      end
  | VObj kvs =>
      match kvs with
      | [] => u16 "{}"
      | (k, x) :: kvs' =>
          123%N :: QuoteJSONString k ++ 58%N :: JSON_stringify x
            ++ (fix more (l : list (jsstring * value)) : jsstring :=
                  match l with
                  | [] => []
                  | (k', y) :: l' =>
                      44%N :: QuoteJSONString k' ++ 58%N :: JSON_stringify y ++ more l'
                  end) kvs'
            ++ [125%N]
      end
  end.

(** ** With a [space] argument *)

(** [SerializeJSONProperty] when the gap is not empty: the elements of
    an array and the members of an object are written on lines of their
    own behind the indentation, which is longer by the gap than that of
    the line of the opening bracket or brace; a space follows the colon
    of a member. *)
Fixpoint SerializeJSONProperty (gap indent : jsstring) (v : value) : jsstring :=
  match v with
  | VArr xs =>
      match xs with
      | [] => u16 "[]"
      | x :: xs' =>
          let stepback := indent in
          let indent := stepback ++ gap in
          91%N :: 10%N :: indent ++ SerializeJSONProperty gap indent x
            ++ (fix more (l : list value) : jsstring :=
                  match l with
                  | [] => []
                  | y :: l' =>
                      44%N :: 10%N :: indent
                        ++ SerializeJSONProperty gap indent y ++ more l'
                  end) xs'
            ++ 10%N :: stepback ++ [93%N]
      end
  | VObj kvs =>
      match kvs with
      | [] => u16 "{}"
      | (k, x) :: kvs' =>
          let stepback := indent in
          let indent := stepback ++ gap in
          123%N :: 10%N :: indent ++ QuoteJSONString k
            ++ 58%N :: 32%N :: SerializeJSONProperty gap indent x
            ++ (fix more (l : list (jsstring * value)) : jsstring :=
                  match l with
                  | [] => []
                  | (k', y) :: l' =>
                      44%N :: 10%N :: indent ++ QuoteJSONString k'
                        ++ 58%N :: 32%N :: SerializeJSONProperty gap indent y
                        ++ more l'
                  end) kvs'
            ++ 10%N :: stepback ++ [125%N]
      end
  | _ => JSON_stringify v
  end.

(** [JSON.stringify(v, null, space)] for a number [space]: the gap is
    made of [space] spaces, ten at most. *)
Definition JSON_stringify_space (space : nat) (v : value) : jsstring :=
  match replicate (space `min` 10) 32%N with
  | [] => JSON_stringify v
  | gap => SerializeJSONProperty gap [] v
  end.

(* ================================================================== *)
(** * [JSON.parse] *)
(* ================================================================== *)

(** The white space of the JSON grammar: space, tab, line feed, carriage
    return. *)
Definition is_json_ws (c : N) : bool :=
  ((c =? 32) || (c =? 9) || (c =? 10) || (c =? 13))%N.

Fixpoint skip_ws (s : jsstring) : jsstring :=
  match s with
  | [] => []
  | c :: s' => if is_json_ws c then skip_ws s' else s
  end.

Definition is_digit (c : N) : bool := ((48 <=? c) && (c <=? 57))%N.

(** ** Strings *)

Definition hex_value (c : N) : option N :=
  (if is_digit c then Some (c - 48)
   else if (97 <=? c) && (c <=? 102) then Some (c - 87)
   else if (65 <=? c) && (c <=? 70) then Some (c - 55)
   else None)%N.

(** The character a one-letter escape stands for. *)
Definition escape_value (c : N) : option N :=
  (if c =? 34 then Some 34
   else if c =? 92 then Some 92
   else if c =? 47 then Some 47
   else if c =? 98 then Some 8
   else if c =? 102 then Some 12
   else if c =? 110 then Some 10
   else if c =? 114 then Some 13
   else if c =? 116 then Some 9
   else None)%N.

(** The code units of a string, read after its opening quote up to its
    closing quote; a control character must be escaped. *)
Fixpoint parse_chars (s : jsstring) : option (jsstring * jsstring) :=
  match s with
  | [] => None
  | c :: s' =>
      if (c =? 34)%N then Some ([], s')
      else if (c =? 92)%N then
        match s' with
        | [] => None
        | e :: s'' =>
            if (e =? 117)%N then
              match s'' with
              | h3 :: h2 :: h1 :: h0 :: s''' =>
                  match hex_value h3, hex_value h2, hex_value h1, hex_value h0 with
                  | Some d3, Some d2, Some d1, Some d0 =>
                      match parse_chars s''' with
                      | Some (r, rest) =>
                          Some ((((d3 * 16 + d2) * 16 + d1) * 16 + d0)%N :: r, rest)
                      | None => None
                      end
                  | _, _, _, _ => None
                  end
              | _ => None
              end
            else
              match escape_value e with
              | Some d =>
                  match parse_chars s'' with
                  | Some (r, rest) => Some (d :: r, rest)
                  | None => None
                  end
              | None => None
              end
        end
      else if (c <? 32)%N then None
      else
        match parse_chars s' with
        | Some (r, rest) => Some (c :: r, rest)
        | None => None
        end
  end.

(** ** Numbers *)

(** The longest prefix of digits, and what follows it. *)
Fixpoint span_digits (s : jsstring) : jsstring * jsstring :=
  match s with
  | [] => ([], [])
  | c :: s' =>
      if is_digit c then let (ds, rest) := span_digits s' in (c :: ds, rest)
      else ([], s)
  end.

Definition digits_value (ds : jsstring) : N :=
  foldl (fun acc c => (acc * 10 + (c - 48))%N) 0%N ds.

(** The Number [m * 10^e]: an integer when it is one. *)
Fixpoint normalize (fuel : nat) (m e : Z) : value :=
  if (0 <=? e)%Z then VInt (m * 10 ^ e)
  else
    match fuel with
    | O => VDec m e
    | S fuel' =>
        if (m mod 10 =? 0)%Z then normalize fuel' (m / 10) (e + 1)
        else VDec m e
    end.

Definition make_number (m e : Z) : value := normalize (Z.to_nat (- e)) m e.

(** The four parts of [-? int frac? exp?]. *)
Definition parse_sign (s : jsstring) : bool * jsstring :=
  match s with
  | c :: s' => if (c =? 45)%N then (true, s') else (false, s)
  | [] => (false, s)
  end.

(** [0], or a digit from 1 to 9 and the digits after it. *)
Definition parse_int_part (s : jsstring) : option (jsstring * jsstring) :=
  match s with
  | c :: s' =>
      if (c =? 48)%N then Some ([48%N], s')
      else if is_digit c then Some (span_digits s)
      else None
  | [] => None
  end.

Definition parse_frac_part (s : jsstring) : option (jsstring * jsstring) :=
  match s with
  | c :: s' =>
      if (c =? 46)%N then
        let '(ds, rest) := span_digits s' in
        match ds with
        | [] => None
        | _ :: _ => Some (ds, rest)
        end
      else Some ([], s)
  | [] => Some ([], s)
  end.

Definition parse_exp_part (s : jsstring) : option (Z * jsstring) :=
  match s with
  | c :: s' =>
      if (c =? 101)%N || (c =? 69)%N then
        let '(negative, s'') :=
          match s' with
          | c' :: t =>
              if (c' =? 45)%N then (true, t)
              else if (c' =? 43)%N then (false, t)
              else (false, s')
          | [] => (false, s')
          end in
        let '(ds, rest) := span_digits s'' in
        match ds with
        | [] => None
        | _ :: _ =>
            Some (if negative then (- Z.of_N (digits_value ds))%Z
                  else Z.of_N (digits_value ds), rest)
        end
      else Some (0%Z, s)
  | [] => Some (0%Z, s)
  end.

Definition parse_number (s : jsstring) : option (value * jsstring) :=
  let '(negative, s1) := parse_sign s in
  '(int_ds, s2) ← parse_int_part s1;
  '(frac_ds, s3) ← parse_frac_part s2;
  '(exponent, s4) ← parse_exp_part s3;
  let magnitude := Z.of_N (digits_value (int_ds ++ frac_ds)) in
  Some (make_number (if negative then (- magnitude)%Z else magnitude)
          (exponent - Z.of_nat (length frac_ds)),
        s4).

(** ** Values *)

(** [s] without its prefix [p]. *)
Fixpoint strip_prefix (p s : jsstring) : option jsstring :=
  match p, s with
  | [], _ => Some s
  | a :: p', b :: s' => if (a =? b)%N then strip_prefix p' s' else None
  | _ :: _, [] => None
  end.

(** [CreateDataProperty]: a name met again takes the new value and keeps
    its place. *)
Fixpoint set_property (k : jsstring) (v : value) (kvs : list (jsstring * value))
  : list (jsstring * value) :=
  match kvs with
  | [] => [(k, v)]
  | (k', v') :: kvs' =>
      if decide (k' = k) then (k, v) :: kvs' else (k', v') :: set_property k v kvs'
  end.

(** A recursive-descent parser.  Each call uses one unit of [fuel] and
    reads at least one code unit before it calls another, so the length
    of the text is fuel enough. *)
Fixpoint parse_value (fuel : nat) (s : jsstring) : option (value * jsstring) :=
  match fuel with
  | O => None
  | S fuel' =>
      match skip_ws s with
      | [] => None
      | c :: s' =>
          if (c =? 123)%N then
            match skip_ws s' with
            | c' :: s'' =>
                if (c' =? 125)%N then Some (VObj [], s'')
                else parse_members fuel' s' []
            | [] => None
            end
          else if (c =? 91)%N then
            match skip_ws s' with
            | c' :: s'' =>
                if (c' =? 93)%N then Some (VArr [], s'')
                else parse_elements fuel' s' []
            | [] => None
            end
          else if (c =? 34)%N then
            '(str, rest) ← parse_chars s'; Some (VStr str, rest)
          else if (c =? 116)%N then
            rest ← strip_prefix (u16 "rue") s'; Some (VBool true, rest)
          else if (c =? 102)%N then
            rest ← strip_prefix (u16 "alse") s'; Some (VBool false, rest)
          else if (c =? 110)%N then
            rest ← strip_prefix (u16 "ull") s'; Some (VNull, rest)
          else parse_number (c :: s')
      end
  end
with parse_elements (fuel : nat) (s : jsstring) (acc : list value)
  : option (value * jsstring) :=
  match fuel with
  | O => None
  | S fuel' =>
      match parse_value fuel' s with
      | None => None
      | Some (x, rest) =>
          match skip_ws rest with
          | c :: rest' =>
              if (c =? 44)%N then parse_elements fuel' rest' (acc ++ [x])
              else if (c =? 93)%N then Some (VArr (acc ++ [x]), rest')
              else None
          | [] => None
          end
      end
  end
with parse_members (fuel : nat) (s : jsstring) (acc : list (jsstring * value))
  : option (value * jsstring) :=
  match fuel with
  | O => None
  | S fuel' =>
      match skip_ws s with
      | q :: s1 =>
          if (q =? 34)%N then
            match parse_chars s1 with
            | None => None
            | Some (k, s2) =>
                match skip_ws s2 with
                | colon :: s3 =>
                    if (colon =? 58)%N then
                      match parse_value fuel' s3 with
                      | None => None
                      | Some (x, rest) =>
                          match skip_ws rest with
                          | c :: rest' =>
                              if (c =? 44)%N then
                                parse_members fuel' rest' (set_property k x acc)
                              else if (c =? 125)%N then
                                Some (VObj (set_property k x acc), rest')
                              else None
                          | [] => None
                          end
                      end
                    else None
                | [] => None
                end
            end
          else None
      | [] => None
      end
  end.

(** What a call of the platform can throw. *)
Inductive exn :=
| SyntaxError
| QuotaExceededError.

Inductive result (A : Type) :=
| Ok (x : A)
| Throw (e : exn).
Arguments Ok {A} x.
Arguments Throw {A} e.

(** [try { body } catch (e) { handler }] *)
Definition try_catch {A : Type} (body : result A) (handler : exn → A) : A :=
  match body with
  | Ok x => x
  | Throw e => handler e
  end.

(** [JSON.parse(text)]: one value, with nothing but white space after
    it. *)
Definition JSON_parse (text : jsstring) : result value :=
  match parse_value (S (length text)) text with
  | Some (v, rest) =>
      match skip_ws rest with
      | [] => Ok v
      | _ :: _ => Throw SyntaxError
      end
  | None => Throw SyntaxError
  end.

(* ================================================================== *)
(** * [localStorage] and the hook [useLocalStorageState] *)
(* ================================================================== *)

(** The store of the page's origin: the strings kept under their keys,
    and the writes the browser accepts ([setItem] throws on the others,
    for instance when the quota is exceeded). *)
Record Storage := mkStorage {
  items : gmap jsstring jsstring;
  accepts : jsstring → jsstring → bool
}.

(** [localStorage.getItem(key)]; [None] is [null]. *)
Definition getItem (ls : Storage) (key : jsstring) : option jsstring :=
  items ls !! key.

(** [localStorage.setItem(key, v)] *)
Definition setItem (ls : Storage) (key v : jsstring) : result Storage :=
  if accepts ls key v then
    Ok {| items := <[key := v]> (items ls); accepts := accepts ls |}
  else Throw QuotaExceededError.

Definition LS_KEY : jsstring := u16 "hindi_ekta_shangh_data_v1".

(** The initializer given to [useState]. *)
Definition useLocalStorageState_init (key : jsstring) (initial : value)
    (ls : Storage) : value :=
  try_catch
    (let raw := getItem ls key in
     match raw with
     | Some text => if truthy text then JSON_parse text else Ok initial
     | None => Ok initial
     end)
    (fun _ => initial).

(** The body of the effect. *)
Definition useLocalStorageState_effect (key : jsstring) (state : value)
    (ls : Storage) : Storage :=
  try_catch (setItem ls key (JSON_stringify state)) (fun _ => ls).

(** One render of a component that calls the hook, followed by its
    effect.  [cell] is the state cell: empty at the first render, when
    the initializer runs.  The result is the state the render sees and
    the store the effect leaves. *)
Definition useLocalStorageState (key : jsstring) (initial : value)
    (cell : option value) (ls : Storage) : value * Storage :=
  let state :=
    match cell with
    | Some v => v
    | None => useLocalStorageState_init key initial ls
    end in
  (state, useLocalStorageState_effect key state ls).

(** The [load] and [save] of the specification, as [App] uses the hook. *)
Definition load (ls : Storage) : value :=
  useLocalStorageState_init LS_KEY (Document_to_value seed) ls.

Definition save (d : Document) (ls : Storage) : Storage :=
  useLocalStorageState_effect LS_KEY (Document_to_value d) ls.

(* ================================================================== *)
(** * Notions used to state the round trip *)
(* ================================================================== *)

(** What [parse_chars] returns once one more code unit [c] is decoded. *)
Definition decoded (c : N) (r : option (jsstring * jsstring))
  : option (jsstring * jsstring) :=
  match r with
  | Some (str, rest) => Some (c :: str, rest)
  | None => None
  end.

(** In a text written by [JSON.stringify], a value is followed by a
    comma, by a closing bracket or brace, or by nothing. *)
Definition delimited (rest : jsstring) : Prop :=
  match rest with
  | [] => True
  | c :: _ => c = 44%N ∨ c = 93%N ∨ c = 125%N
  end.

(** What can follow the text of a number: nothing, or a code unit that
    does not continue it. *)
Definition ends_number (rest : jsstring) : Prop :=
  match rest with
  | [] => True
  | c :: _ => is_digit c = false ∧ c ≠ 46%N ∧ c ≠ 101%N ∧ c ≠ 69%N
  end.

(** The text after the first element of an array, and after the first
    member of an object, up to the closing bracket or brace. *)
Fixpoint more_elements (l : list value) : jsstring :=
  match l with
  | [] => []
  | y :: l' => 44%N :: JSON_stringify y ++ more_elements l'
  end.

Fixpoint more_members (l : list (jsstring * value)) : jsstring :=
  match l with
  | [] => []
  | (k, y) :: l' =>
      44%N :: QuoteJSONString k ++ 58%N :: JSON_stringify y ++ more_members l'
  end.

(** The values for which the round trip is proved: no number but the
    integers, and no object with a name twice. *)
Fixpoint plain (v : value) : bool :=
  match v with
  | VNull | VBool _ | VStr _ | VInt _ => true
  | VDec _ _ => false
  | VArr xs => forallb plain xs
  | VObj kvs => bool_decide (NoDup kvs.*1) && forallb (fun kv => plain kv.2) kvs
  end.

(** Fuel that is enough to parse the text of a value. *)
Fixpoint need (v : value) : nat :=
  match v with
  | VArr xs => S (foldr (fun x n => S (need x + n)) 0%nat xs)
  | VObj kvs => S (foldr (fun kv n => S (need kv.2 + n)) 0%nat kvs)
  | _ => 1
  end.

(** The text of [v], followed by [rest], is parsed to [v], leaving
    [rest]. *)
Definition reads_back (v : value) : Prop :=
  ∀ fuel rest,
    plain v = true → need v ≤ fuel → delimited rest →
    parse_value fuel (JSON_stringify v ++ rest) = Some (v, rest).

(** The same for a text written with a gap. *)
Fixpoint more_elements_spaced (gap indent : jsstring) (l : list value) : jsstring :=
  match l with
  | [] => []
  | y :: l' =>
      44%N :: 10%N :: indent
        ++ SerializeJSONProperty gap indent y ++ more_elements_spaced gap indent l'
  end.

Fixpoint more_members_spaced (gap indent : jsstring) (l : list (jsstring * value))
  : jsstring :=
  match l with
  | [] => []
  | (k, y) :: l' =>
      44%N :: 10%N :: indent ++ QuoteJSONString k
        ++ 58%N :: 32%N :: SerializeJSONProperty gap indent y
        ++ more_members_spaced gap indent l'
  end.

Definition white (s : jsstring) : Prop := Forall (fun c => is_json_ws c = true) s.

Definition reads_back_spaced (gap : jsstring) (v : value) : Prop :=
  ∀ indent fuel rest,
    white indent → plain v = true → need v ≤ fuel → ends_number rest →
    parse_value fuel (SerializeJSONProperty gap indent v ++ rest) = Some (v, rest).

(** All member ids are pairwise distinct, and so are all idea ids. *)
Definition ids_distinct (d : Document) : Prop :=
  NoDup (m_id <$> members d) ∧ NoDup (i_id <$> ideas d).

(** The ids in use, in the order of the lists. *)
Definition member_ids (a : App) : list Z := m_id <$> members (data a).
Definition idea_ids (a : App) : list Z := i_id <$> ideas (data a).

(* ================================================================== *)
(** * Sessions used as examples *)
(* ================================================================== *)

(** Three readings of the clock on the first of May 2024: 09:50:00,
    09:51:00 and 10:00:00 UTC, in milliseconds since the epoch. *)
Definition t_0950 : Z := 1714557000000.
Definition t_0951 : Z := 1714557060000.
Definition t_1000 : Z := 1714557600000.

(** Scenario C of the specification, up to the submission. *)
Definition fix_gate : App :=
  run [EditIdeaTitle (u16 "Fix gate");
       SubmitIdea t_1000 (u16 "2024-05-01T10:00:00.000Z")]
      (mount seed).

(** Scenario C followed by the status change. *)
Definition gate_fixed : App := handle (TakeAction t_1000) fix_gate.

(** A form whose name is made of white space only. *)
Definition blank_name_form : App :=
  run [EditMemberPosition (u16 "Guard");
       EditMemberName [32; 9; 160; 0x3000]%N]
      (mount seed).

(** Scenario A of the specification: the form filled in, not yet sent. *)
Definition asha_pending : App := handle (EditMemberName (u16 "Asha")) (mount seed).

(** A second member typed in after a first one was added at 09:50. *)
Definition ravi_pending : App :=
  run [EditMemberName (u16 "Asha"); SubmitMember t_0950;
       EditMemberName (u16 "Ravi")]
      (mount seed).

(** Two members added at the same clock reading. *)
Definition same_tick : list event :=
  [EditMemberName (u16 "Asha"); SubmitMember t_0950;
   EditMemberName (u16 "Ravi"); SubmitMember t_0950].

(** A name and a title entered with white space around them. *)
Definition padded_forms : App :=
  run [EditMemberName (u16 " Asha "); EditIdeaTitle (u16 " Fix gate ")]
      (mount seed).

(** A session in which the clock advances between the creations. *)
Definition advancing_clock : list event :=
  [EditMemberName (u16 "Asha"); SubmitMember t_0950;
   EditMemberName (u16 "Ravi"); SubmitMember t_0951;
   EditIdeaTitle (u16 "Fix gate"); SubmitIdea t_1000 (u16 "2024-05-01T10:00:00.000Z");
   RemoveMember t_0950 true; TakeAction t_1000].

(** An empty store with room for five million code units per item. *)
Definition roomy_store : Storage :=
  {| items := ∅;
     accepts := fun _ v => (N.of_nat (length v) <=? 5000000)%N |}.

(** A store whose slot holds a text that is not JSON, and which takes no
    write. *)
Definition broken_store : Storage :=
  {| items := {[ LS_KEY := u16 "{bad" ]};
     accepts := fun _ _ => false |}.

(** The document at the end of the session [advancing_clock]. *)
Definition small_document : Document := data (run advancing_clock (mount seed)).

(* ================================================================== *)
(** * The rest of the component *)
(* ================================================================== *)

(** ** The part of the state an event belongs to *)

(** The two fields of the header. *)
Definition header_side (e : event) : bool :=
  match e with
  | EditSanghName _ | EditDescription _ => true
  | _ => false
  end.

(** The member form, its two buttons and the remove buttons. *)
Definition member_side (e : event) : bool :=
  match e with
  | EditMemberName _ | EditMemberPosition _ | EditMemberWork _
  | MemberPhotoLoaded _ | CancelMemberForm | SubmitMember _
  | RemoveMember _ _ => true
  | _ => false
  end.

(** The idea form, its two buttons and the action buttons. *)
Definition idea_side (e : event) : bool :=
  match e with
  | EditIdeaTitle _ | EditIdeaDescription _ | IdeaImageLoaded _
  | CancelIdeaForm | SubmitIdea _ _ | TakeAction _ => true
  | _ => false
  end.

(** The members built by the submissions of a session that pass the
    check, in order. *)
Fixpoint created_members (tr : list event) (a : App) : list Member :=
  match tr with
  | [] => []
  | e :: tr' =>
      match member_reading e a with
      | Some now => newMember now (memberForm a) :: created_members tr' (handle e a)
      | None => created_members tr' (handle e a)
      end
  end.

(** Whether a confirmed removal occurs in a session. *)
Definition confirmed_removal (e : event) : bool :=
  match e with
  | RemoveMember _ true => true
  | _ => false
  end.

(** ** What the two checks and [|| null] guarantee *)

Definition checked_member (m : Member) : Prop :=
  trim (m_name m) ≠ [] ∧ m_photo m ≠ Some [].

Definition checked_idea (i : Idea) : Prop :=
  trim (i_title i) ≠ []
  ∧ i_image i ≠ Some []
  ∧ (i_status i = Open ∨ i_status i = ActionTaken).

Definition checked_document (d : Document) : Prop :=
  Forall checked_member (members d) ∧ Forall checked_idea (ideas d).

(** ** The view *)

(** [it.status !== "Action Taken" && <button ...>]: whether the action
    button of an idea is rendered. *)
Definition renders_action_button (it : Idea) : bool :=
  negb (bool_decide (i_status it = ActionTaken)).

(** [m.photo ? <img .../> : <div>No Photo</div>]: whether the photo of a
    member is rendered. *)
Definition renders_photo (m : Member) : bool :=
  match m_photo m with
  | Some url => truthy url
  | None => false
  end.

(** Two ideas that differ at most by their status. *)
Definition same_but_status (i i' : Idea) : Prop :=
  i_id i' = i_id i
  ∧ i_title i' = i_title i
  ∧ i_description i' = i_description i
  ∧ i_image i' = i_image i
  ∧ i_submittedAt i' = i_submittedAt i.

(** [it.image && <img .../>]: whether the image of an idea is
    rendered. *)
Definition renders_image (it : Idea) : bool :=
  match i_image it with
  | Some url => truthy url
  | None => false
  end.

(** ** The file inputs *)

(** A chosen file is given as the data URL that [readAsDataURL] makes of
    it and that [onload] finds in [e.target.result]; [None] is no file
    ([e.target.files?.[0]] is [undefined]).  The result is the update of
    the state made at [onload]. *)
Definition handlePhotoUpload (file : option jsstring)
    (setter : (MemberForm → MemberForm) → App → App) (a : App) : App :=
  match file with
  | None => a
  | Some result =>
      setter (fun prev => {| mf_name := mf_name prev;
                             mf_position := mf_position prev;
                             mf_work := mf_work prev;
                             mf_photoDataUrl := result |}) a
  end.

Definition handleIdeaImageUpload (file : option jsstring) (a : App) : App :=
  match file with
  | None => a
  | Some result =>
      setIdeaForm (fun p => {| if_title := if_title p;
                               if_description := if_description p;
                               if_imageDataUrl := result |}) a
  end.

(** The [onChange] of the first file input of the member form
    ([id="memberPhoto"]).  The function it passes as [setter] does not
    use its argument. *)
Definition memberPhoto_onChange (file : option jsstring) (a : App) : App :=
  handlePhotoUpload file
    (fun _ => setMemberForm (fun m => {| mf_name := mf_name m;
                                         mf_position := mf_position m;
                                         mf_work := mf_work m;
                                         mf_photoDataUrl := mf_photoDataUrl m |}))
    a.

(** The [onChange] of the second file input of the member form. *)
Definition photo_onChange (file : option jsstring) (a : App) : App :=
  match file with
  | None => a
  | Some result =>
      setMemberForm (fun m => {| mf_name := mf_name m;
                                 mf_position := mf_position m;
                                 mf_work := mf_work m;
                                 mf_photoDataUrl := result |}) a
  end.

(** ** The fields and the item buttons *)

(** The field an [onChange] or an [onload] writes, numbered from the top
    of the page. *)
Definition edited_field (e : event) : option nat :=
  match e with
  | EditSanghName _ => Some 0%nat
  | EditDescription _ => Some 1%nat
  | EditMemberName _ => Some 2%nat
  | EditMemberPosition _ => Some 3%nat
  | EditMemberWork _ => Some 4%nat
  | MemberPhotoLoaded _ => Some 5%nat
  | EditIdeaTitle _ => Some 6%nat
  | EditIdeaDescription _ => Some 7%nat
  | IdeaImageLoaded _ => Some 8%nat
  | _ => None
  end.



(** ** The export *)

(** What [exportData] offers for download: the text and the type given
    to the [Blob], and the name of the file. *)
Record download := mkDownload {
  blob_text : jsstring;
  blob_type : jsstring;
  file_name : jsstring
}.

Definition exportData (a : App) : App * download :=
  (a,
   {| blob_text := JSON_stringify_space 2 (Document_to_value (data a));
      blob_type := u16 "application/json";
      file_name := u16 "shang_data.json" |}).

(** A store into whose slot an exported file was copied. *)
Definition restored_store (a : App) : Storage :=
  {| items := {[ LS_KEY := blob_text (exportData a).2 ]};
     accepts := fun _ _ => true |}.

(** ** Further stores *)

(** An empty store with room for two hundred code units per item. *)
Definition tight_store : Storage :=
  {| items := ∅;
     accepts := fun _ v => (N.of_nat (length v) <=? 200)%N |}.

(** A store whose slot holds the text [null]. *)
Definition null_store : Storage :=
  {| items := {[ LS_KEY := u16 "null" ]};
     accepts := fun _ _ => true |}.

(** ** The three parts of the state *)

Definition header_part (a : App) : jsstring * jsstring :=
  (sanghName (data a), description (data a)).

Definition member_part (a : App) : list Member * MemberForm :=
  (members (data a), memberForm a).

Definition idea_part (a : App) : list Idea * IdeaForm :=
  (ideas (data a), ideaForm a).

(** A session from which a confirmed removal is absent. *)
Definition removes_nothing (tr : list event) : bool :=
  forallb (fun e => negb (confirmed_removal e)) tr.

(* ================================================================== *)
(** * Properties of the handlers *)
(* ================================================================== *)

(** ** Trimming *)

Lemma trimStart_nil_iff (s : jsstring) :
  trimStart s = [] ↔ Forall (fun c => isWhiteSpace c = true) s.
Proof.
  induction s as [|c s IH]; simpl.
  - split; [constructor | reflexivity].
  - destruct (isWhiteSpace c) eqn:Hc.
    + rewrite IH. split.
      * intros Hs. by constructor.
      * intros Hs. by inversion Hs.
    + split; [discriminate |].
      intros Hs. inversion Hs; congruence.
Qed.

Lemma trimStart_fixed (s : jsstring) : trimStart (trimStart s) = trimStart s.
Proof.
  induction s as [|c s IH]; simpl; [done |].
  destruct (isWhiteSpace c) eqn:Hc; [done |].
  simpl. by rewrite Hc.
Qed.

(** [!s.trim()] holds exactly for the strings made of white space only,
    the empty string among them. *)
Lemma trim_nil_iff (s : jsstring) :
  trim s = [] ↔ Forall (fun c => isWhiteSpace c = true) s.
Proof.
  unfold trim, trimEnd. split.
  - intros H.
    apply (f_equal reverse) in H. rewrite reverse_involutive in H.
    change (reverse []) with (@nil N) in H.
    apply (proj1 (trimStart_nil_iff _)) in H.
    rewrite Forall_reverse in H.
    apply (proj2 (trimStart_nil_iff _)) in H.
    rewrite trimStart_fixed in H.
    by apply trimStart_nil_iff.
  - intros H. apply trimStart_nil_iff in H. by rewrite H.
Qed.

Lemma truthy_true_iff (s : jsstring) : truthy s = true ↔ s ≠ [].
Proof. destruct s; simpl; split; congruence. Qed.

(** ** The two branches of [addMember] and of [submitIdea] *)

Lemma addMember_rejects now a :
  trim (mf_name (memberForm a)) = [] →
  addMember now a = (a, [Alert msg_name_required]).
Proof. intros H. unfold addMember. by rewrite H. Qed.

Lemma addMember_accepts now a :
  trim (mf_name (memberForm a)) ≠ [] →
  addMember now a =
    ({| data :=
          with_members (members (data a) ++ [newMember now (memberForm a)])
            (data a);
        memberForm := emptyMemberForm;
        ideaForm := ideaForm a |}, []).
Proof.
  intros H. unfold addMember.
  apply truthy_true_iff in H. by rewrite H.
Qed.

Lemma submitIdea_rejects now iso a :
  trim (if_title (ideaForm a)) = [] →
  submitIdea now iso a = (a, [Alert msg_title_required]).
Proof. intros H. unfold submitIdea. by rewrite H. Qed.

Lemma submitIdea_accepts now iso a :
  trim (if_title (ideaForm a)) ≠ [] →
  submitIdea now iso a =
    ({| data :=
          with_ideas (newIdea now iso (ideaForm a) :: ideas (data a)) (data a);
        memberForm := memberForm a;
        ideaForm := emptyIdeaForm |}, []).
Proof.
  intros H. unfold submitIdea.
  apply truthy_true_iff in H. by rewrite H.
Qed.

(** ** The status update *)

Lemma ideas_takeActionOnIdea id a :
  ideas (data (takeActionOnIdea id a)) = mark id <$> ideas (data a).
Proof. reflexivity. Qed.

Lemma mark_id id i : i_id (mark id i) = i_id i.
Proof. unfold mark. by destruct (i_id i =? id)%Z. Qed.

Lemma mark_other id i : i_id i ≠ id → mark id i = i.
Proof.
  intros H. unfold mark.
  destruct (Z.eqb_spec (i_id i) id); [contradiction | reflexivity].
Qed.

Lemma mark_same id i : i_id i = id → mark id i = with_status ActionTaken i.
Proof. intros H. unfold mark. by rewrite (proj2 (Z.eqb_eq _ _) H). Qed.

Lemma with_status_same i : with_status (i_status i) i = i.
Proof. by destruct i. Qed.

Lemma mark_taken id i : i_status i = ActionTaken → mark id i = i.
Proof.
  intros H. unfold mark. destruct (i_id i =? id)%Z; [| reflexivity].
  rewrite <- H. apply with_status_same.
Qed.

Lemma mark_mark id i : mark id (mark id i) = mark id i.
Proof.
  destruct (Z.eq_dec (i_id i) id) as [E | E].
  - rewrite (mark_same id i E). by apply mark_taken.
  - rewrite (mark_other id i E). exact (mark_other id i E).
Qed.

Lemma Open_neq_ActionTaken : Open ≠ ActionTaken.
Proof. discriminate. Qed.

(** The source writes the status with a space in it. *)
Lemma ActionTaken_spelling :
  ActionTaken = u16 "Action Taken" ∧ ActionTaken ≠ u16 "ActionTaken".
Proof. split; [reflexivity | discriminate]. Qed.

(** C1, as it holds: in a document with an idea of id [id] and status
    [Open], [takeActionOnIdea id] gives that idea the status string
    ["Action Taken"] (with a space) and keeps its other fields; every idea
    with another id is unchanged and stays where it is; the name, the
    description, the members and both forms are unchanged. *)
Theorem takeActionOnIdea_marks (id : Z) (a : App) (k : nat) (i : Idea) :
  ideas (data a) !! k = Some i → i_id i = id → i_status i = Open →
  ideas (data (takeActionOnIdea id a)) !! k = Some (with_status (u16 "Action Taken") i)
  ∧ length (ideas (data (takeActionOnIdea id a))) = length (ideas (data a))
  ∧ (∀ j o, ideas (data a) !! j = Some o → i_id o ≠ id →
            ideas (data (takeActionOnIdea id a)) !! j = Some o)
  ∧ sanghName (data (takeActionOnIdea id a)) = sanghName (data a)
  ∧ description (data (takeActionOnIdea id a)) = description (data a)
  ∧ members (data (takeActionOnIdea id a)) = members (data a)
  ∧ memberForm (takeActionOnIdea id a) = memberForm a
  ∧ ideaForm (takeActionOnIdea id a) = ideaForm a.
Proof.
  intros Hk Hid _. rewrite !ideas_takeActionOnIdea.
  repeat split.
  - rewrite list_lookup_fmap, Hk. simpl. by rewrite mark_same.
  - apply length_fmap.
  - intros j o Hj Ho. rewrite list_lookup_fmap, Hj. simpl. by rewrite mark_other.
Qed.

(** Scenario C: the idea submitted as "Fix gate" and then marked. *)
Lemma takeActionOnIdea_marks_witness :
  ideas (data fix_gate) !! 0%nat
    = Some (mkIdea t_1000 (u16 "Fix gate") [] None Open (u16 "2024-05-01T10:00:00.000Z"))
  ∧ ideas (data (takeActionOnIdea t_1000 fix_gate)) !! 0%nat
    = Some (mkIdea t_1000 (u16 "Fix gate") [] None (u16 "Action Taken")
              (u16 "2024-05-01T10:00:00.000Z")).
Proof.
  split; [reflexivity |].
  refine (proj1 (takeActionOnIdea_marks t_1000 fix_gate 0
                   (mkIdea t_1000 (u16 "Fix gate") [] None Open
                      (u16 "2024-05-01T10:00:00.000Z")) _ _ _));
    reflexivity.
Defined.

(** C1, as the specification words it, fails: after scenario C the status
    of the idea is not the string ["ActionTaken"]. *)
Lemma takeActionOnIdea_not_ActionTaken_string :
  (∃ i, ideas (data fix_gate) !! 0%nat = Some i ∧ i_id i = t_1000 ∧ i_status i = Open)
  ∧ ¬ (∃ i', ideas (data (takeActionOnIdea t_1000 fix_gate)) !! 0%nat = Some i'
             ∧ i_status i' = u16 "ActionTaken").
Proof.
  split.
  - eexists. repeat split; reflexivity.
  - intros (i' & Hi' & Hs). vm_compute in Hi'.
    injection Hi' as <-. discriminate Hs.
Qed.

(** ** Ideas whose action was taken stay as they are *)

Lemma fmap_fixed {A} (f : A → A) (l : list A) :
  (∀ x, x ∈ l → f x = x) → f <$> l = l.
Proof.
  induction l as [|x l IH]; intros H; simpl; [done |].
  rewrite (H x) by constructor.
  f_equal. apply IH. intros y Hy. apply H. by constructor.
Qed.

Lemma takeActionOnIdea_unchanged id a :
  (∀ i, i ∈ ideas (data a) → i_id i = id → i_status i = ActionTaken) →
  takeActionOnIdea id a = a.
Proof.
  intros H. destruct a as [[n ds ms l] mf idf]; simpl in *.
  unfold takeActionOnIdea, setData, with_ideas; simpl.
  do 2 f_equal. apply fmap_fixed. intros i Hi.
  destruct (Z.eq_dec (i_id i) id) as [E | E].
  - apply mark_taken. by apply H.
  - by apply mark_other.
Qed.

Lemma takeActionOnIdea_twice id a :
  takeActionOnIdea id (takeActionOnIdea id a) = takeActionOnIdea id a.
Proof.
  unfold takeActionOnIdea, setData, with_ideas; simpl.
  do 2 f_equal. rewrite <- list_fmap_compose.
  apply list_fmap_ext. intros _ i _. simpl. apply mark_mark.
Qed.

(** Ideas are counted from the oldest one, [reverse (ideas d) !! k], since
    new ideas are put in front. *)
Lemma handle_keeps_taken e a k i :
  reverse (ideas (data a)) !! k = Some i → i_status i = ActionTaken →
  reverse (ideas (data (handle e a))) !! k = Some i.
Proof.
  intros Hk Hs. destruct e; simpl; try done.
  - unfold addMember. by destruct (negb _).
  - unfold submitIdea. destruct (negb _); simpl; [done |].
    rewrite reverse_cons. by apply lookup_app_l_Some.
  - rewrite <- fmap_reverse, list_lookup_fmap, Hk. simpl.
    by rewrite mark_taken.
  - unfold removeMember. by destruct (negb _).
Qed.

Lemma run_keeps_taken tr a k i :
  reverse (ideas (data a)) !! k = Some i → i_status i = ActionTaken →
  reverse (ideas (data (run tr a))) !! k = Some i.
Proof.
  revert a. induction tr as [|e tr IH]; intros a Hk Hs; [done |].
  apply (IH (handle e a)); [| done]. by apply handle_keeps_taken.
Qed.

(** C3: [takeActionOnIdea id] is idempotent; it changes nothing when no
    idea has the id, and nothing when the ideas with that id already have
    the status [ActionTaken]; and whatever events follow, an idea whose
    status is [ActionTaken] is found unchanged at its place (counted from
    the oldest idea), so its status never becomes [Open] again. *)
Theorem takeActionOnIdea_idempotent_terminal (id : Z) (a : App) :
  takeActionOnIdea id (takeActionOnIdea id a) = takeActionOnIdea id a
  ∧ ((∀ i, i ∈ ideas (data a) → i_id i ≠ id) → takeActionOnIdea id a = a)
  ∧ ((∀ i, i ∈ ideas (data a) → i_id i = id → i_status i = ActionTaken) →
     takeActionOnIdea id a = a)
  ∧ (∀ tr k i,
       reverse (ideas (data a)) !! k = Some i → i_status i = ActionTaken →
       reverse (ideas (data (run tr a))) !! k = Some i ∧ i_status i ≠ Open).
Proof.
  split; [apply takeActionOnIdea_twice |].
  split; [| split].
  - intros H. apply takeActionOnIdea_unchanged. intros i Hi E.
    by destruct (H i Hi).
  - apply takeActionOnIdea_unchanged.
  - intros tr k i Hk Hs. split; [by apply run_keeps_taken |].
    rewrite Hs. intros E. by apply Open_neq_ActionTaken.
Qed.

(** An id no idea has; an idea already marked; and an idea that stays
    marked through further events. *)
Lemma takeActionOnIdea_idempotent_terminal_witness :
  takeActionOnIdea t_0950 fix_gate = fix_gate
  ∧ takeActionOnIdea t_1000 gate_fixed = gate_fixed
  ∧ ∃ i, reverse (ideas (data gate_fixed)) !! 0%nat = Some i
         ∧ i_status i = ActionTaken
         ∧ reverse
             (ideas
                (data
                   (run [TakeAction t_1000; EditIdeaTitle (u16 "Night patrol");
                         SubmitIdea 1714638600000 (u16 "2024-05-02T08:30:00.000Z");
                         TakeAction t_1000]
                      gate_fixed))) !! 0%nat = Some i.
Proof.
  split; [| split].
  - apply (proj1 (proj2 (takeActionOnIdea_idempotent_terminal t_0950 fix_gate))).
    intros i Hi. vm_compute in Hi.
    apply list_elem_of_singleton in Hi. by subst i.
  - apply (proj1 (proj2 (proj2 (takeActionOnIdea_idempotent_terminal t_1000 gate_fixed)))).
    intros i Hi _. vm_compute in Hi.
    apply list_elem_of_singleton in Hi. by subst i.
  - eexists. split; [reflexivity |]. split; [reflexivity |].
    apply (proj2 (proj2 (proj2 (takeActionOnIdea_idempotent_terminal t_1000 gate_fixed))));
      reflexivity.
Defined.

(** C4: when the name of the member form is empty once trimmed, that is,
    when it is empty or made of white space only, [addMember] shows its
    alert and changes nothing: not the members, not the rest of the
    document, and not the form, which keeps what was entered. *)
Theorem addMember_blank_name (now : Z) (a : App) :
  trim (mf_name (memberForm a)) = []
  ∨ Forall (fun c => isWhiteSpace c = true) (mf_name (memberForm a)) →
  addMember now a = (a, [Alert msg_name_required])
  ∧ members (data (addMember now a).1) = members (data a)
  ∧ data (addMember now a).1 = data a
  ∧ memberForm (addMember now a).1 = memberForm a.
Proof.
  intros H.
  assert (trim (mf_name (memberForm a)) = []) as Ht.
  { destruct H as [H | H]; [done | by apply trim_nil_iff]. }
  by rewrite (addMember_rejects now a Ht).
Qed.

(** A name made of a space, a tab, a no-break space and an ideographic
    space: the position typed in is still in the form. *)
Lemma addMember_blank_name_witness :
  mf_position (memberForm blank_name_form) = u16 "Guard"
  ∧ addMember t_1000 blank_name_form
    = (blank_name_form, [Alert msg_name_required]).
Proof.
  split; [reflexivity |].
  apply (addMember_blank_name t_1000 blank_name_form).
  right. change (mf_name (memberForm blank_name_form)) with [32; 9; 160; 0x3000]%N.
  repeat constructor.
Defined.

(** ** Adding a member *)

(** C5, as it holds: when the name is not empty once trimmed, [addMember]
    appends exactly one member, at the last position, whose id is the
    reading [now] of [Date.now()], whose name, position and work are those
    of the form and whose photo is the chosen one, or [null] when none was
    chosen; the members already there keep their places and values; the
    form is reset to its empty defaults; nothing else changes.  The id is
    one no member has yet exactly when the reading differs from the ids in
    use.  From the seed, adding "Asha" gives the one-member list of
    scenario A. *)
Theorem addMember_appends (now : Z) (a : App) :
  trim (mf_name (memberForm a)) ≠ [] →
  members (data (addMember now a).1)
    = members (data a) ++ [newMember now (memberForm a)]
  ∧ length (members (data (addMember now a).1)) = S (length (members (data a)))
  ∧ last (members (data (addMember now a).1)) = Some (newMember now (memberForm a))
  ∧ (∀ k m, members (data a) !! k = Some m →
            members (data (addMember now a).1) !! k = Some m)
  ∧ newMember now (memberForm a)
    = {| m_id := now;
         m_name := mf_name (memberForm a);
         m_position := mf_position (memberForm a);
         m_work := mf_work (memberForm a);
         m_photo := if truthy (mf_photoDataUrl (memberForm a))
                    then Some (mf_photoDataUrl (memberForm a)) else None |}
  ∧ (m_id (newMember now (memberForm a)) ∉ m_id <$> members (data a)
     ↔ ∀ m, m ∈ members (data a) → m_id m ≠ now)
  ∧ memberForm (addMember now a).1 = emptyMemberForm
  ∧ ideaForm (addMember now a).1 = ideaForm a
  ∧ sanghName (data (addMember now a).1) = sanghName (data a)
  ∧ description (data (addMember now a).1) = description (data a)
  ∧ ideas (data (addMember now a).1) = ideas (data a)
  ∧ members (data (addMember now asha_pending).1)
    = [ {| m_id := now; m_name := u16 "Asha"; m_position := [];
           m_work := []; m_photo := None |} ].
Proof.
  intros H. rewrite (addMember_accepts now a H). simpl.
  repeat split.
  - rewrite length_app. simpl. lia.
  - apply last_snoc.
  - intros k m Hk. by apply lookup_app_l_Some.
  - intros Hn m Hm E. apply Hn. rewrite <- E. by apply list_elem_of_fmap_2.
  - intros Hn Hin. apply list_elem_of_fmap in Hin as (m & E & Hm).
    by apply (Hn m Hm).
Qed.

(** A second member, added at 09:51. *)
Lemma addMember_appends_witness :
  trim (mf_name (memberForm ravi_pending)) ≠ []
  ∧ members (data (addMember t_0951 ravi_pending).1)
    = [ {| m_id := t_0950; m_name := u16 "Asha"; m_position := [];
           m_work := []; m_photo := None |};
        {| m_id := t_0951; m_name := u16 "Ravi"; m_position := [];
           m_work := []; m_photo := None |} ].
Proof.
  assert (trim (mf_name (memberForm ravi_pending)) ≠ []) as H
    by (vm_compute; discriminate).
  split; [exact H |].
  exact (proj1 (addMember_appends t_0951 ravi_pending H)).
Defined.

(** C5, as the specification words it, fails on the freshness of the id:
    when [Date.now()] returns a reading it returned before, the member
    added carries the id of a member already in the list. *)
Lemma addMember_id_not_fresh :
  trim (mf_name (memberForm ravi_pending)) ≠ []
  ∧ ¬ (∃ new,
         members (data (addMember t_0950 ravi_pending).1)
           = members (data ravi_pending) ++ [new]
         ∧ m_id new ∉ m_id <$> members (data ravi_pending)).
Proof.
  split; [vm_compute; discriminate |].
  intros (new & Hnew & Hfresh). vm_compute in Hnew.
  injection Hnew as <-. apply Hfresh. vm_compute. constructor.
Qed.

(** ** Submitting an idea *)

(** C6: with a title that is empty once trimmed [submitIdea] leaves the
    ideas (and everything else) unchanged; with any other title it puts
    one new idea at index 0, with status [Open] and [submittedAt] the
    timestamp read at submission, and the ideas already there follow in
    their order; submitting "Night patrol" and then "Better lighting"
    from the seed gives them in the order "Better lighting",
    "Night patrol". *)
Theorem submitIdea_prepends (now : Z) (iso : jsstring) (a : App) :
  (trim (if_title (ideaForm a)) = [] →
     submitIdea now iso a = (a, [Alert msg_title_required])
     ∧ ideas (data (submitIdea now iso a).1) = ideas (data a))
  ∧ (trim (if_title (ideaForm a)) ≠ [] →
     ideas (data (submitIdea now iso a).1)
       = newIdea now iso (ideaForm a) :: ideas (data a)
     ∧ length (ideas (data (submitIdea now iso a).1)) = S (length (ideas (data a)))
     ∧ ideas (data (submitIdea now iso a).1) !! 0%nat
       = Some (newIdea now iso (ideaForm a))
     ∧ i_status (newIdea now iso (ideaForm a)) = u16 "Open"
     ∧ i_submittedAt (newIdea now iso (ideaForm a)) = iso
     ∧ (∀ k, ideas (data (submitIdea now iso a).1) !! S k = ideas (data a) !! k))
  ∧ (∀ now2 iso2,
       i_title <$>
         ideas (data (run [EditIdeaTitle (u16 "Night patrol"); SubmitIdea now iso;
                           EditIdeaTitle (u16 "Better lighting");
                           SubmitIdea now2 iso2]
                        (mount seed)))
       = [u16 "Better lighting"; u16 "Night patrol"]).
Proof.
  split; [| split].
  - intros H. by rewrite (submitIdea_rejects now iso a H).
  - intros H. rewrite (submitIdea_accepts now iso a H). by simpl.
  - reflexivity.
Qed.

(** After scenario C the form is empty and a submission is refused; a
    new title goes in front. *)
Lemma submitIdea_prepends_witness :
  submitIdea 1714726800000 (u16 "2024-05-03T09:00:00.000Z") fix_gate
    = (fix_gate, [Alert msg_title_required])
  ∧ i_title <$>
      ideas (data (submitIdea 1714726800000 (u16 "2024-05-03T09:00:00.000Z")
                     (handle (EditIdeaTitle (u16 "Night patrol")) fix_gate)).1)
    = [u16 "Night patrol"; u16 "Fix gate"].
Proof.
  split.
  - apply (proj1 (submitIdea_prepends 1714726800000 (u16 "2024-05-03T09:00:00.000Z") fix_gate)).
    reflexivity.
  - rewrite (proj1 (proj1 (proj2 (submitIdea_prepends 1714726800000 (u16 "2024-05-03T09:00:00.000Z")
                (handle (EditIdeaTitle (u16 "Night patrol")) fix_gate)))
             ltac:(vm_compute; discriminate))).
    reflexivity.
Defined.

(** ** Text is stored as entered *)

(** C10: [trim] is used by the check only.  A name (a title) whose
    trimmed form is not empty is accepted, and the member (the idea)
    added carries the name, position and work (the title and description)
    exactly as the form has them; the name " Asha " is stored with its two
    spaces. *)
Theorem text_stored_untrimmed (now : Z) (iso : jsstring) (a : App) :
  (trim (mf_name (memberForm a)) ≠ [] →
     ∃ m, last (members (data (addMember now a).1)) = Some m
          ∧ m_name m = mf_name (memberForm a)
          ∧ m_position m = mf_position (memberForm a)
          ∧ m_work m = mf_work (memberForm a))
  ∧ (trim (if_title (ideaForm a)) ≠ [] →
     ∃ i, head (ideas (data (submitIdea now iso a).1)) = Some i
          ∧ i_title i = if_title (ideaForm a)
          ∧ i_description i = if_description (ideaForm a))
  ∧ m_name <$> members (data (addMember now padded_forms).1) = [u16 " Asha "]
  ∧ i_title <$> ideas (data (submitIdea now iso padded_forms).1) = [u16 " Fix gate "]
  ∧ trim (u16 " Asha ") = u16 "Asha".
Proof.
  split; [| split].
  - intros H. rewrite (addMember_accepts now a H). simpl.
    eexists. split; [apply last_snoc |]. by simpl.
  - intros H. rewrite (submitIdea_accepts now iso a H). simpl.
    eexists. split; [reflexivity |]. by simpl.
  - repeat split; reflexivity.
Qed.

(** The padded name and the padded title, as stored. *)
Lemma text_stored_untrimmed_witness :
  (∃ m, last (members (data (addMember t_0950 padded_forms).1)) = Some m
        ∧ m_name m = u16 " Asha ")
  ∧ (∃ i, head (ideas (data (submitIdea t_1000 (u16 "2024-05-01T10:00:00.000Z")
                               padded_forms).1)) = Some i
          ∧ i_title i = u16 " Fix gate ").
Proof.
  split.
  - destruct (proj1 (text_stored_untrimmed t_0950 [] padded_forms)
                ltac:(vm_compute; discriminate)) as (m & Hm & Hn & _).
    exists m. split; [exact Hm | exact Hn].
  - destruct (proj1 (proj2 (text_stored_untrimmed t_1000 (u16 "2024-05-01T10:00:00.000Z")
                               padded_forms))
                ltac:(vm_compute; discriminate)) as (i & Hi & Ht & _).
    exists i. split; [exact Hi | exact Ht].
Defined.

(** ** Removing a member *)

Section Filter_by_id.

Context {A : Type} (f : A → Z) (id : Z).

Lemma length_filter_id (l : list A) :
  length l = (length (filter (fun m => f m ≠ id) l)
              + length (filter (fun m => f m = id) l))%nat.
Proof.
  induction l as [|x l IH]; [done |].
  rewrite !filter_cons.
  destruct (decide (f x ≠ id)) as [Hx | Hx], (decide (f x = id)) as [Hy | Hy];
    simpl; try lia; congruence.
Qed.

Lemma filter_id_absent (l : list A) :
  id ∉ f <$> l → filter (fun m => f m = id) l = [].
Proof.
  induction l as [|x l IH]; intros H; [done |].
  rewrite fmap_cons, not_elem_of_cons in H. destruct H as [Hx Hl].
  rewrite filter_cons_False by congruence. by apply IH.
Qed.

Lemma filter_id_none (l : list A) :
  (∀ m, m ∈ l → f m ≠ id) → filter (fun m => f m ≠ id) l = l.
Proof.
  induction l as [|x l IH]; intros H; [done |].
  rewrite filter_cons_True by (apply H; constructor).
  f_equal. apply IH. intros m Hm. apply H. by constructor.
Qed.

Lemma filter_id_unique (l : list A) :
  NoDup (f <$> l) → (∃ m, m ∈ l ∧ f m = id) →
  length (filter (fun m => f m = id) l) = 1%nat.
Proof.
  induction l as [|x l IH]; intros Hnd (m & Hm & E).
  - by apply elem_of_nil in Hm.
  - rewrite fmap_cons in Hnd. apply NoDup_cons in Hnd as [Hx Hnd].
    destruct (decide (f x = id)) as [Hfx | Hfx].
    + rewrite filter_cons_True by done.
      rewrite filter_id_absent; [done |]. by rewrite <- Hfx.
    + rewrite filter_cons_False by done. apply IH; [done |].
      apply elem_of_cons in Hm as [-> | Hm]; [done |]. by exists m.
Qed.

Lemma NoDup_fmap_filter (P : A → Prop) `{∀ x, Decision (P x)} (l : list A) :
  NoDup (f <$> l) → NoDup (f <$> filter P l).
Proof.
  induction l as [|x l IH]; intros Hnd; [constructor |].
  rewrite fmap_cons in Hnd. apply NoDup_cons in Hnd as [Hx Hnd].
  rewrite filter_cons. destruct (decide (P x)); [| by apply IH].
  rewrite fmap_cons. apply NoDup_cons. split; [| by apply IH].
  intros Hin. apply Hx.
  apply list_elem_of_fmap in Hin as (y & E & Hy).
  apply list_elem_of_filter in Hy as [_ Hy].
  rewrite E. by apply list_elem_of_fmap_2.
Qed.
End Filter_by_id.

Lemma removeMember_confirmed id a :
  removeMember id true a =
    ({| data := with_members (filter (fun m => m_id m ≠ id) (members (data a))) (data a);
        memberForm := memberForm a;
        ideaForm := ideaForm a |}, [Confirm msg_confirm_remove]).
Proof. reflexivity. Qed.

(** C7, as it holds: when [confirm] answers [false] nothing changes; when
    it answers [true], [removeMember id] keeps, in their order, exactly
    the members whose id differs from [id], so the length goes down by the
    number of members that had this id: by exactly 1 when the member ids
    are pairwise distinct and one of them is [id], and by 0, the whole
    state being unchanged, when no member has it.  Nothing but [members]
    changes. *)
Theorem removeMember_filters (id : Z) (a : App) :
  removeMember id false a = (a, [Confirm msg_confirm_remove])
  ∧ members (data (removeMember id true a).1)
    = filter (fun m => m_id m ≠ id) (members (data a))
  ∧ (∀ m, m ∈ members (data (removeMember id true a).1)
          ↔ m ∈ members (data a) ∧ m_id m ≠ id)
  ∧ length (members (data a))
    = (length (members (data (removeMember id true a).1))
       + length (filter (fun m => m_id m = id) (members (data a))))%nat
  ∧ (NoDup (m_id <$> members (data a)) →
     (∃ m, m ∈ members (data a) ∧ m_id m = id) →
     length (members (data a))
     = S (length (members (data (removeMember id true a).1))))
  ∧ ((∀ m, m ∈ members (data a) → m_id m ≠ id) →
     (removeMember id true a).1 = a)
  ∧ sanghName (data (removeMember id true a).1) = sanghName (data a)
  ∧ description (data (removeMember id true a).1) = description (data a)
  ∧ ideas (data (removeMember id true a).1) = ideas (data a)
  ∧ memberForm (removeMember id true a).1 = memberForm a
  ∧ ideaForm (removeMember id true a).1 = ideaForm a.
Proof.
  split; [reflexivity |]. rewrite removeMember_confirmed. simpl.
  split; [reflexivity |].
  split; [| split; [| split; [| split]]].
  - intros m. rewrite list_elem_of_filter. tauto.
  - apply length_filter_id.
  - intros Hnd Hex.
    rewrite (length_filter_id m_id id (members (data a))).
    rewrite (filter_id_unique m_id id _ Hnd Hex). lia.
  - intros H. rewrite (filter_id_none m_id id _ H).
    by destruct a as [[] ? ?].
  - done.
Qed.

(** Two members, added at 09:50 and 09:51: removing the first id takes
    one away, removing an id no member has changes nothing. *)
Lemma removeMember_filters_witness :
  length (members (data (addMember t_0951 ravi_pending).1))
  = S (length (members (data (removeMember t_0950 true (addMember t_0951 ravi_pending).1).1)))
  ∧ (removeMember t_1000 true (addMember t_0951 ravi_pending).1).1 = (addMember t_0951 ravi_pending).1.
Proof.
  split.
  - apply (proj1 (proj2 (proj2 (proj2 (proj2
             (removeMember_filters t_0950 (addMember t_0951 ravi_pending).1)))))).
    + vm_compute. apply NoDup_cons. split; [| apply NoDup_singleton].
      intros H. apply list_elem_of_singleton in H. discriminate.
    + eexists. split; [vm_compute; constructor | reflexivity].
  - apply (proj1 (proj2 (proj2 (proj2 (proj2 (proj2
             (removeMember_filters t_1000 (addMember t_0951 ravi_pending).1))))))).
    intros m Hm. vm_compute in Hm.
    apply elem_of_cons in Hm as [-> | Hm]; [done |].
    apply list_elem_of_singleton in Hm as ->. done.
Defined.

(** C7, as the specification words it, fails: with two members of the
    same id in the list, one confirmed removal takes both away, and the
    length goes down by 2. *)
Lemma removeMember_removes_two :
  (∃ m, m ∈ members (data (run same_tick (mount seed))) ∧ m_id m = t_0950)
  ∧ length (members (data (run same_tick (mount seed)))) = 2%nat
  ∧ length (members (data (removeMember t_0950 true (run same_tick (mount seed))).1))
    ≠ (length (members (data (run same_tick (mount seed)))) - 1)%nat.
Proof.
  split; [| split].
  - eexists. split; [vm_compute; constructor | reflexivity].
  - reflexivity.
  - vm_compute. discriminate.
Qed.

(** ** Distinct ids *)

(** What one event does to the ids of the members. *)
Lemma handle_member_ids e a :
  match member_reading e a with
  | Some now => member_ids (handle e a) = member_ids a ++ [now]
  | None => member_ids (handle e a) `sublist_of` member_ids a
  end.
Proof.
  unfold member_ids.
  destruct e; simpl; try reflexivity.
  - unfold addMember. destruct (truthy _); simpl; [| reflexivity].
    by rewrite fmap_app.
  - unfold submitIdea. by destruct (negb _).
  - unfold removeMember. destruct (negb _); simpl; [reflexivity |].
    apply fmap_sublist, sublist_filter.
Qed.

(** What one event does to the ids of the ideas. *)
Lemma handle_idea_ids e a :
  match idea_reading e a with
  | Some now => idea_ids (handle e a) = now :: idea_ids a
  | None => idea_ids (handle e a) = idea_ids a
  end.
Proof.
  unfold idea_ids.
  destruct e; simpl; try reflexivity.
  - unfold addMember. by destruct (negb _).
  - unfold submitIdea. by destruct (truthy _).
  - rewrite <- list_fmap_compose. apply list_fmap_ext.
    intros _ i _. apply mark_id.
  - unfold removeMember. by destruct (negb _).
Qed.

(** The invariant behind C2: the ids in use and the readings still to
    come are pairwise distinct. *)
Lemma run_member_ids_distinct tr :
  ∀ a, NoDup (member_ids a ++ member_readings tr a) →
       NoDup (member_ids (run tr a)).
Proof.
  induction tr as [|e tr IH]; intros a Hnd.
  - by rewrite app_nil_r in Hnd.
  - change (run (e :: tr) a) with (run tr (handle e a)).
    apply IH. cbn [member_readings] in Hnd.
    pose proof (handle_member_ids e a) as He.
    destruct (member_reading e a) as [now |].
    + rewrite He, <- app_assoc. exact Hnd.
    + eapply sublist_NoDup; [exact Hnd |].
      by apply sublist_app.
Qed.

Lemma run_idea_ids_distinct tr :
  ∀ a, NoDup (idea_ids a ++ idea_readings tr a) →
       NoDup (idea_ids (run tr a)).
Proof.
  induction tr as [|e tr IH]; intros a Hnd.
  - by rewrite app_nil_r in Hnd.
  - change (run (e :: tr) a) with (run tr (handle e a)).
    apply IH. cbn [idea_readings] in Hnd.
    pose proof (handle_idea_ids e a) as He.
    destruct (idea_reading e a) as [now |]; rewrite He; [| exact Hnd].
    rewrite <- Permutation_middle in Hnd. exact Hnd.
Qed.

(** C2, as it holds: after any session started on the seed document in
    which no two creations of a member read the same value from
    [Date.now()] and no two creations of an idea do, the member ids are
    pairwise distinct and the idea ids are pairwise distinct. *)
Theorem ids_distinct_when_readings_differ (tr : list event) :
  NoDup (member_readings tr (mount seed)) →
  NoDup (idea_readings tr (mount seed)) →
  ids_distinct (data (run tr (mount seed))).
Proof.
  intros Hm Hi. split.
  - by apply run_member_ids_distinct.
  - by apply run_idea_ids_distinct.
Qed.

(** A session in which the clock gives three different readings. *)
Lemma ids_distinct_when_readings_differ_witness :
  member_readings advancing_clock (mount seed) = [t_0950; t_0951]
  ∧ idea_readings advancing_clock (mount seed) = [t_1000]
  ∧ ids_distinct (data (run advancing_clock (mount seed))).
Proof.
  split; [reflexivity |]. split; [reflexivity |].
  apply (ids_distinct_when_readings_differ advancing_clock).
  - change (NoDup [t_0950; t_0951]). apply NoDup_cons. split; [| apply NoDup_singleton].
    intros H. apply list_elem_of_singleton in H. discriminate.
  - change (NoDup [t_1000]). apply NoDup_singleton.
Defined.

(** C2, as the specification words it, fails: two members added while
    [Date.now()] returns the same reading have the same id. *)
Lemma ids_not_distinct_same_tick :
  member_ids (run same_tick (mount seed)) = [t_0950; t_0950]
  ∧ ¬ ids_distinct (data (run same_tick (mount seed))).
Proof.
  split; [reflexivity |].
  intros [H _]. change (NoDup [t_0950; t_0950]) in H.
  apply NoDup_cons in H as [H _]. apply H. constructor.
Qed.

(* ================================================================== *)
(** * [JSON.parse] after [JSON.stringify] *)
(* ================================================================== *)

(** Appends nested to the right, with the leading code units in front. *)
Ltac assoc_right := repeat (progress (rewrite <- ?app_assoc; cbn [app])).

(** ** Strings *)

Lemma hex_value_hex_digit (d : N) :
  (d < 16)%N → hex_value (hex_digit d) = Some d.
Proof.
  intros H.
  assert (d = 0 ∨ d = 1 ∨ d = 2 ∨ d = 3 ∨ d = 4 ∨ d = 5 ∨ d = 6 ∨ d = 7
          ∨ d = 8 ∨ d = 9 ∨ d = 10 ∨ d = 11 ∨ d = 12 ∨ d = 13 ∨ d = 14
          ∨ d = 15)%N as Hd by lia.
  repeat (destruct Hd as [-> | Hd]; [reflexivity |]).
  by subst d.
Qed.

Lemma hex_recombine (c : N) :
  (c < 65536)%N →
  (((c / 16 / 16 / 16 mod 16 * 16 + c / 16 / 16 mod 16) * 16 + c / 16 mod 16) * 16
   + c mod 16 = c)%N.
Proof.
  intros H.
  pose proof (N.div_mod c 16 ltac:(lia)) as H0.
  pose proof (N.div_mod (c / 16) 16 ltac:(lia)) as H1.
  pose proof (N.div_mod (c / 16 / 16) 16 ltac:(lia)) as H2.
  pose proof (N.div_mod (c / 16 / 16 / 16) 16 ltac:(lia)) as H3.
  pose proof (N.mod_lt c 16 ltac:(lia)).
  pose proof (N.mod_lt (c / 16) 16 ltac:(lia)).
  pose proof (N.mod_lt (c / 16 / 16) 16 ltac:(lia)).
  assert (c / 16 / 16 / 16 / 16 = 0)%N as Hz.
  { apply N.div_small.
    repeat (apply N.Div0.div_lt_upper_bound). lia. }
  rewrite Hz in H3. lia.
Qed.

Lemma parse_chars_u (h3 h2 h1 h0 : N) (s : jsstring) :
  parse_chars (92 :: 117 :: h3 :: h2 :: h1 :: h0 :: s)%N
  = match hex_value h3, hex_value h2, hex_value h1, hex_value h0 with
    | Some d3, Some d2, Some d1, Some d0 =>
        decoded (((d3 * 16 + d2) * 16 + d1) * 16 + d0)%N (parse_chars s)
    | _, _, _, _ => None
    end.
Proof. reflexivity. Qed.

Lemma parse_chars_unicode_escape (c : N) (s : jsstring) :
  (c < 65536)%N →
  parse_chars (unicode_escape c ++ s) = decoded c (parse_chars s).
Proof.
  intros H. unfold unicode_escape. cbn [app].
  rewrite parse_chars_u.
  rewrite !hex_value_hex_digit by (apply N.mod_lt; lia).
  by rewrite hex_recombine.
Qed.

Lemma parse_chars_literal (c : N) (s : jsstring) :
  (32 <= c)%N → c ≠ 34%N → c ≠ 92%N →
  parse_chars (c :: s) = decoded c (parse_chars s).
Proof.
  intros H32 H34 H92. simpl.
  destruct (N.eqb_spec c 34); [done |].
  destruct (N.eqb_spec c 92); [done |].
  destruct (N.ltb_spec c 32); [lia |].
  reflexivity.
Qed.

Lemma parse_chars_quote_unit (c : N) (s : jsstring) :
  parse_chars (quote_unit c ++ s) = decoded c (parse_chars s).
Proof.
  unfold quote_unit.
  repeat match goal with
         | |- context [(c =? ?k)%N] =>
             destruct (N.eqb_spec c k); [subst c; reflexivity |]
         end.
  destruct (N.ltb_spec c 32).
  - apply parse_chars_unicode_escape. lia.
  - apply parse_chars_literal; [lia | done | done].
Qed.

Lemma is_lead_bounds (c : N) : is_lead c = true → (0xd800 <= c <= 0xdbff)%N.
Proof.
  unfold is_lead. intros [H1 H2]%andb_true_iff.
  apply N.leb_le in H1, H2. lia.
Qed.

Lemma is_trail_bounds (c : N) : is_trail c = true → (0xdc00 <= c <= 0xdfff)%N.
Proof.
  unfold is_trail. intros [H1 H2]%andb_true_iff.
  apply N.leb_le in H1, H2. lia.
Qed.

(** Reading back a quoted string gives the string, whatever its code
    units. *)
Lemma parse_chars_quote_units (s : jsstring) :
  ∀ paired rest,
    parse_chars (quote_units paired s ++ 34%N :: rest) = Some (s, rest).
Proof.
  induction s as [|c s IH]; intros paired rest.
  - reflexivity.
  - cbn [quote_units].
    destruct (is_lead c) eqn:Hl.
    { apply is_lead_bounds in Hl.
      destruct (starts_with_trail s).
      - cbn [app]. rewrite parse_chars_literal by lia. by rewrite IH.
      - rewrite <- app_assoc, parse_chars_unicode_escape by lia. by rewrite IH. }
    destruct (is_trail c) eqn:Ht.
    { apply is_trail_bounds in Ht.
      destruct paired.
      - cbn [app]. rewrite parse_chars_literal by lia. by rewrite IH.
      - rewrite <- app_assoc, parse_chars_unicode_escape by lia. by rewrite IH. }
    rewrite <- app_assoc, parse_chars_quote_unit. by rewrite IH.
Qed.

(** ** Numbers *)

Lemma div10_lt (n : N) (fuel : nat) :
  (n < 2 ^ N.of_nat (S fuel))%N → (n / 10 < 2 ^ N.of_nat fuel)%N.
Proof.
  intros Hn. rewrite Nat2N.inj_succ, N.pow_succ_r' in Hn.
  pose proof (N.div_mod n 10 ltac:(lia)) as Hdm.
  pose proof (N.mod_lt n 10 ltac:(lia)) as Hm.
  revert Hn Hdm Hm.
  generalize (n / 10)%N (n mod 10)%N (2 ^ N.of_nat fuel)%N. intros. lia.
Qed.

(** Quotient and remainder by 10, as two numbers [q] and [r]. *)
Lemma div10_cases (n : N) :
  ∃ q r, (n / 10 = q ∧ n mod 10 = r ∧ n = 10 * q + r ∧ r < 10)%N.
Proof.
  exists (n / 10)%N, (n mod 10)%N. repeat split.
  - apply N.div_mod. lia.
  - apply N.mod_lt. lia.
Qed.

Lemma digits_fuel_value (fuel : nat) :
  ∀ n acc,
    (n < 2 ^ N.of_nat fuel)%N →
    digits_value (digits_fuel fuel n acc)
    = foldl (fun a c => (a * 10 + (c - 48))%N) n acc.
Proof.
  unfold digits_value.
  induction fuel as [|fuel IH]; intros n acc Hn.
  - simpl in Hn. by replace n with 0%N by lia.
  - cbn [digits_fuel]. apply div10_lt in Hn.
    destruct (div10_cases n) as (q & r & Eq & -> & Hdm & Hr).
    rewrite Eq in Hn |- *.
    destruct (N.eqb_spec q 0) as [Hq | Hq].
    + cbn [foldl].
      by replace (0 * 10 + (48 + r - 48))%N with n by lia.
    + rewrite IH by done. cbn [foldl].
      by replace (q * 10 + (48 + r - 48))%N with n by lia.
Qed.

Lemma digits_fuel_digits (fuel : nat) :
  ∀ n acc,
    Forall (fun c => is_digit c = true) acc →
    Forall (fun c => is_digit c = true) (digits_fuel fuel n acc).
Proof.
  induction fuel as [|fuel IH]; intros n acc Hacc; [done |].
  cbn [digits_fuel].
  destruct (div10_cases n) as (q & r & -> & -> & Hdm & Hr).
  assert (is_digit (48 + r) = true) as Hd.
  { unfold is_digit. apply andb_true_iff. split; apply N.leb_le; lia. }
  destruct (q =? 0)%N; [by constructor |].
  apply IH. by constructor.
Qed.

Lemma digits_fuel_head (fuel : nat) :
  ∀ n acc,
    n ≠ 0%N → (n < 2 ^ N.of_nat fuel)%N →
    ∃ c tl, digits_fuel fuel n acc = c :: tl ∧ (49 <= c <= 57)%N.
Proof.
  induction fuel as [|fuel IH]; intros n acc Hn Hlt.
  - simpl in Hlt. lia.
  - cbn [digits_fuel]. apply div10_lt in Hlt.
    destruct (div10_cases n) as (q & r & Eq & -> & Hdm & Hr).
    rewrite Eq in Hlt |- *.
    destruct (N.eqb_spec q 0) as [Hq | Hq].
    + eexists _, _. split; [reflexivity |]. lia.
    + by apply IH.
Qed.

Lemma digits_fuel_enough (n : N) :
  (n < 2 ^ N.of_nat (S (N.to_nat (N.log2 n))))%N.
Proof.
  rewrite Nat2N.inj_succ, N2Nat.id.
  destruct (N.eq_dec n 0%N) as [-> | Hn]; [done |].
  apply N.log2_spec. lia.
Qed.

Lemma digits_value_digits (n : N) : digits_value (digits n) = n.
Proof. unfold digits. by rewrite digits_fuel_value by apply digits_fuel_enough. Qed.

Lemma digits_are_digits (n : N) : Forall (fun c => is_digit c = true) (digits n).
Proof. apply digits_fuel_digits. constructor. Qed.

Lemma digits_head (n : N) :
  n ≠ 0%N → ∃ c tl, digits n = c :: tl ∧ (49 <= c <= 57)%N.
Proof. intros Hn. by apply digits_fuel_head; [| apply digits_fuel_enough]. Qed.

Lemma is_digit_bounds (c : N) : is_digit c = true ↔ (48 <= c <= 57)%N.
Proof.
  unfold is_digit. rewrite andb_true_iff, !N.leb_le. tauto.
Qed.

Lemma delimited_head (rest : jsstring) :
  delimited rest →
  match rest with
  | [] => True
  | c :: _ =>
      is_digit c = false ∧ c ≠ 46%N ∧ c ≠ 101%N ∧ c ≠ 69%N
      ∧ is_json_ws c = false ∧ (c = 44 ∨ c = 93 ∨ c = 125)%N
  end.
Proof.
  destruct rest as [|c rest]; [done |].
  intros [-> | [-> | ->]]; repeat split; (discriminate || tauto).
Qed.

(** No digit comes first in [rest]. *)
Lemma span_digits_stop (ds rest : jsstring) :
  Forall (fun c => is_digit c = true) ds →
  match rest with [] => True | c :: _ => is_digit c = false end →
  span_digits (ds ++ rest) = (ds, rest).
Proof.
  intros Hds Hrest. induction Hds as [|c ds Hc _ IH]; simpl.
  - destruct rest as [|c rest]; [done |]. simpl. by rewrite Hrest.
  - by rewrite Hc, IH.
Qed.

Lemma delimited_ends_number (rest : jsstring) :
  delimited rest → ends_number rest.
Proof.
  intros H%delimited_head. destruct rest as [|c rest]; [done |].
  destruct H as (H1 & H2 & H3 & H4 & _). by repeat split.
Qed.

Lemma span_digits_app (ds rest : jsstring) :
  Forall (fun c => is_digit c = true) ds → ends_number rest →
  span_digits (ds ++ rest) = (ds, rest).
Proof.
  intros Hds Hrest. apply span_digits_stop; [done |].
  destruct rest as [|c rest]; [done |].
  by destruct Hrest as (Hc & _).
Qed.

Lemma parse_frac_part_none (rest : jsstring) :
  ends_number rest → parse_frac_part rest = Some ([], rest).
Proof.
  intros H. destruct rest as [|c rest]; [done |].
  destruct H as (_ & H & _). simpl.
  by destruct (N.eqb_spec c 46).
Qed.

Lemma parse_exp_part_none (rest : jsstring) :
  ends_number rest → parse_exp_part rest = Some (0%Z, rest).
Proof.
  intros H. destruct rest as [|c rest]; [done |].
  destruct H as (_ & _ & H1 & H2). simpl.
  by destruct (N.eqb_spec c 101), (N.eqb_spec c 69).
Qed.

Lemma parse_int_part_digits (n : N) (rest : jsstring) :
  ends_number rest → parse_int_part (digits n ++ rest) = Some (digits n, rest).
Proof.
  intros Hrest. destruct (N.eq_dec n 0%N) as [-> | Hn]; [done |].
  pose proof (span_digits_app (digits n) rest (digits_are_digits n) Hrest) as Hspan.
  destruct (digits_head n Hn) as (c & tl & E & Hc).
  rewrite E in Hspan |- *. cbn [app] in Hspan |- *. unfold parse_int_part.
  destruct (N.eqb_spec c 48); [lia |].
  rewrite (proj2 (is_digit_bounds c)) by lia.
  by rewrite Hspan.
Qed.

Lemma digits_nonempty (n : N) : ∃ c tl, digits n = c :: tl ∧ is_digit c = true.
Proof.
  destruct (N.eq_dec n 0%N) as [-> | Hn].
  - by exists 48%N, [].
  - destruct (digits_head n Hn) as (c & tl & E & Hc).
    exists c, tl. split; [done |]. by apply is_digit_bounds; lia.
Qed.

Lemma parse_sign_digits (n : N) (rest : jsstring) :
  parse_sign (digits n ++ rest) = (false, digits n ++ rest).
Proof.
  destruct (digits_nonempty n) as (c & tl & -> & Hc%is_digit_bounds).
  simpl. destruct (N.eqb_spec c 45); [lia | done].
Qed.

(** An integer written with all its digits is read back. *)
Lemma parse_number_small (z : Z) (rest : jsstring) :
  (Z.abs z < 10 ^ 21)%Z → ends_number rest →
  parse_number (int_to_string z ++ rest) = Some (VInt z, rest).
Proof.
  intros Hz Hrest. unfold int_to_string, minus_sign.
  rewrite (proj2 (Z.ltb_lt _ _) Hz).
  unfold parse_number.
  destruct (Z.ltb_spec z 0) as [Hneg | Hpos].
  - cbn [app parse_sign N.eqb Pos.eqb].
    rewrite parse_int_part_digits by done. cbn [mbind option_bind].
    rewrite parse_frac_part_none by done. cbn [mbind option_bind].
    rewrite parse_exp_part_none by done. cbn [mbind option_bind].
    rewrite app_nil_r, digits_value_digits. unfold make_number. simpl.
    change (0 - Z.of_nat 0)%Z with 0%Z.
    rewrite Z.pow_0_r, Z.mul_1_r, N2Z.inj_abs_N.
    do 3 f_equal. lia.
  - cbn [app]. rewrite parse_sign_digits.
    rewrite parse_int_part_digits by done. cbn [mbind option_bind].
    rewrite parse_frac_part_none by done. cbn [mbind option_bind].
    rewrite parse_exp_part_none by done. cbn [mbind option_bind].
    rewrite app_nil_r, digits_value_digits. unfold make_number. simpl.
    change (0 - Z.of_nat 0)%Z with 0%Z.
    rewrite Z.pow_0_r, Z.mul_1_r, N2Z.inj_abs_N.
    do 3 f_equal. lia.
Qed.

(** *** Integers from [10^21] on, written with an exponent *)

Lemma digits_value_snoc (l : jsstring) (c : N) :
  digits_value (l ++ [c]) = (digits_value l * 10 + (c - 48))%N.
Proof. unfold digits_value. by rewrite foldl_app. Qed.

Lemma digits_value_zeros (j : nat) :
  ∀ l, digits_value (l ++ replicate j 48%N) = (digits_value l * 10 ^ N.of_nat j)%N.
Proof.
  induction j as [|j IH]; intros l.
  - rewrite app_nil_r. simpl. lia.
  - rewrite replicate_S, cons_middle, app_assoc, IH, digits_value_snoc.
    rewrite Nat2N.inj_succ, N.pow_succ_r'. lia.
Qed.

Lemma drop_zeros_spec (l : jsstring) :
  ∃ j, l = replicate j 48%N ++ drop_zeros l.
Proof.
  induction l as [|c l [j IH]]; [by exists 0%nat |].
  cbn [drop_zeros]. destruct (N.eqb_spec c 48) as [-> | Hc].
  - exists (S j). rewrite replicate_S. cbn [app]. by f_equal.
  - by exists 0%nat.
Qed.

Lemma strip_trailing_zeros_spec (ds : jsstring) :
  ∃ j, ds = strip_trailing_zeros ds ++ replicate j 48%N.
Proof.
  unfold strip_trailing_zeros.
  destruct (drop_zeros_spec (reverse ds)) as [j Hj]. exists j.
  apply (f_equal reverse) in Hj.
  by rewrite reverse_involutive, reverse_app, reverse_replicate in Hj.
Qed.

(** The digits of a number that is not 0, without the zeros at the end:
    the same first digit, digits only, and the same value once the zeros
    are counted. *)
Lemma strip_digits (n : N) :
  n ≠ 0%N →
  ∃ c tl j,
    strip_trailing_zeros (digits n) = c :: tl
    ∧ (49 <= c <= 57)%N
    ∧ Forall (fun c => is_digit c = true) tl
    ∧ length (digits n) = (S (length tl) + j)%nat
    ∧ (digits_value (c :: tl) * 10 ^ N.of_nat j)%N = n.
Proof.
  intros Hn.
  destruct (digits_head n Hn) as (c & tl0 & E & Hc).
  destruct (strip_trailing_zeros_spec (digits n)) as [j Hj].
  pose proof (digits_are_digits n) as Hd.
  pose proof (digits_value_digits n) as Hv.
  rewrite Hj in Hd, Hv. rewrite digits_value_zeros in Hv.
  apply Forall_app in Hd as [Hd _].
  destruct (strip_trailing_zeros (digits n)) as [|c' tl] eqn:Es.
  - rewrite E in Hj. destruct j as [|j]; [discriminate |].
    rewrite replicate_S in Hj. injection Hj as -> _. lia.
  - assert (c' = c) as ->.
    { rewrite E in Hj. by injection Hj as ->. }
    apply Forall_cons in Hd as [_ Hd].
    exists c, tl, j. repeat split; try done; try lia.
    rewrite Hj, length_app, length_replicate. simpl. lia.
Qed.

Lemma parse_int_part_one (c : N) (rest : jsstring) :
  (49 <= c <= 57)%N →
  match rest with [] => True | c' :: _ => is_digit c' = false end →
  parse_int_part (c :: rest) = Some ([c], rest).
Proof.
  intros Hc Hrest. unfold parse_int_part.
  destruct (N.eqb_spec c 48); [lia |].
  rewrite (proj2 (is_digit_bounds c)) by lia.
  change (c :: rest) with ([c] ++ rest).
  rewrite span_digits_stop; [done | | done].
  constructor; [apply is_digit_bounds; lia | constructor].
Qed.

(** What is written after the first digit: the other digits behind a
    point, if there are any, and the exponent with its sign. *)
Lemma parse_frac_exp (tl : jsstring) (x : N) (rest : jsstring) :
  Forall (fun c => is_digit c = true) tl → ends_number rest →
  (parse_frac_part
     (match tl with [] => [] | _ :: _ => 46%N :: tl end
      ++ 101%N :: 43%N :: digits x ++ rest)
   ≫= fun '(frac_ds, s) =>
        parse_exp_part s ≫= fun '(exponent, s') => Some (frac_ds, exponent, s'))
  = Some (tl, Z.of_N x, rest).
Proof.
  intros Htl Hrest.
  assert (parse_exp_part (101%N :: 43%N :: digits x ++ rest)
          = Some (Z.of_N x, rest)) as Hexp.
  { unfold parse_exp_part. cbn [N.eqb Pos.eqb orb].
    rewrite (span_digits_app _ _ (digits_are_digits x) Hrest).
    destruct (digits_nonempty x) as (c & tl' & E & _).
    rewrite <- (digits_value_digits x) at 2. by rewrite E. }
  destruct tl as [|d tl].
  - cbn [app parse_frac_part N.eqb Pos.eqb mbind option_bind]. by rewrite Hexp.
  - cbn [app]. unfold parse_frac_part. cbn [N.eqb Pos.eqb].
    rewrite (app_comm_cons tl _ d).
    rewrite (span_digits_stop (d :: tl) _ Htl) by done.
    cbn [mbind option_bind]. by rewrite Hexp.
Qed.

Lemma parse_number_exponent (negative : bool) (c : N) (tl : jsstring) (x : N)
    (rest : jsstring) :
  (49 <= c <= 57)%N → Forall (fun c => is_digit c = true) tl → ends_number rest →
  parse_number
    ((if negative then [45%N] else [])
     ++ c :: match tl with [] => [] | _ :: _ => 46%N :: tl end
     ++ 101%N :: 43%N :: digits x ++ rest)
  = Some (make_number
            (if negative then (- Z.of_N (digits_value (c :: tl)))%Z
             else Z.of_N (digits_value (c :: tl)))
            (Z.of_N x - Z.of_nat (length tl)),
          rest).
Proof.
  intros Hc Htl Hrest.
  pose proof (parse_frac_exp tl x rest Htl Hrest) as Hfe.
  assert (match (match tl with [] => [] | _ :: _ => 46%N :: tl end
                 ++ 101%N :: 43%N :: digits x ++ rest) with
          | [] => True
          | c' :: _ => is_digit c' = false
          end) as Hstop by (by destruct tl).
  unfold parse_number.
  assert (parse_sign
            ((if negative then [45%N] else [])
             ++ c :: match tl with [] => [] | _ :: _ => 46%N :: tl end
             ++ 101%N :: 43%N :: digits x ++ rest)
          = (negative,
             c :: match tl with [] => [] | _ :: _ => 46%N :: tl end
             ++ 101%N :: 43%N :: digits x ++ rest)) as ->.
  { destruct negative; [reflexivity |]. cbn [app parse_sign].
    by destruct (N.eqb_spec c 45); [lia |]. }
  rewrite (parse_int_part_one c _ Hc Hstop). cbn [mbind option_bind].
  destruct (parse_frac_part _) as [[frac_ds s] |]; [| discriminate].
  cbn [mbind option_bind] in Hfe |- *.
  destruct (parse_exp_part s) as [[exponent s'] |]; [| discriminate].
  cbn [mbind option_bind] in Hfe |- *.
  by injection Hfe as -> -> ->.
Qed.

Lemma make_number_integer (m e : Z) :
  (0 <= e)%Z → make_number m e = VInt (m * 10 ^ e).
Proof.
  intros He. unfold make_number.
  destruct (Z.to_nat (- e)); cbn [normalize];
    by rewrite (proj2 (Z.leb_le 0 e) He).
Qed.

Lemma parse_number_large (z : Z) (rest : jsstring) :
  (10 ^ 21 <= Z.abs z)%Z → ends_number rest →
  parse_number (int_to_string z ++ rest) = Some (VInt z, rest).
Proof.
  intros Hz Hrest. unfold int_to_string.
  rewrite (proj2 (Z.ltb_ge _ _) Hz).
  assert (Z.abs_N z ≠ 0%N) as Hn by lia.
  destruct (strip_digits (Z.abs_N z) Hn) as (c & tl & j & -> & Hc & Htl & Hlen & Hv).
  rewrite Hlen. unfold exponent_form.
  replace (Z.of_nat (S (length tl) + j) - 1 <? 0)%Z with false
    by (symmetry; apply Z.ltb_ge; lia).
  replace (Z.abs_N (Z.of_nat (S (length tl) + j) - 1))
    with (N.of_nat (length tl + j)) by lia.
  pose proof (parse_number_exponent (z <? 0)%Z c tl (N.of_nat (length tl + j))
                rest Hc Htl Hrest) as H.
  unfold minus_sign. revert H. assoc_right. intros H.
  etrans; [exact H |]. clear H.
  rewrite make_number_integer by lia.
  do 3 f_equal.
  replace (Z.of_N (N.of_nat (length tl + j)) - Z.of_nat (length tl))%Z
    with (Z.of_N (N.of_nat j)) by lia.
  assert (Z.of_N (digits_value (c :: tl)) * 10 ^ Z.of_N (N.of_nat j) = Z.abs z)%Z
    as Habs.
  { rewrite <- N2Z.inj_abs_N, <- Hv, N2Z.inj_mul, N2Z.inj_pow. reflexivity. }
  destruct (Z.ltb_spec z 0); lia.
Qed.

(** Every integer is read back from its text. *)
Lemma parse_number_int (z : Z) (rest : jsstring) :
  ends_number rest → parse_number (int_to_string z ++ rest) = Some (VInt z, rest).
Proof.
  intros Hrest. destruct (Z.lt_ge_cases (Z.abs z) (10 ^ 21)).
  - by apply parse_number_small.
  - by apply parse_number_large.
Qed.

(** ** Values *)

Lemma value_nested_ind (P : value → Prop) :
  P VNull →
  (∀ b, P (VBool b)) →
  (∀ z, P (VInt z)) →
  (∀ m e, P (VDec m e)) →
  (∀ s, P (VStr s)) →
  (∀ xs, Forall P xs → P (VArr xs)) →
  (∀ kvs, Forall (fun kv => P kv.2) kvs → P (VObj kvs)) →
  ∀ v, P v.
Proof.
  intros Hnull Hbool Hint Hdec Hstr Harr Hobj.
  fix IH 1. intros [| b | z | m e | s | xs | kvs].
  - exact Hnull.
  - apply Hbool.
  - apply Hint.
  - apply Hdec.
  - apply Hstr.
  - apply Harr. induction xs as [|x xs IHxs]; constructor; [apply IH | exact IHxs].
  - apply Hobj. induction kvs as [|[k x] kvs IHkvs]; constructor;
      [apply IH | exact IHkvs].
Qed.

Lemma JSON_stringify_array (x : value) (xs : list value) :
  JSON_stringify (VArr (x :: xs))
  = 91%N :: JSON_stringify x ++ more_elements xs ++ [93%N].
Proof. reflexivity. Qed.

Lemma JSON_stringify_object (k : jsstring) (x : value) (kvs : list (jsstring * value)) :
  JSON_stringify (VObj ((k, x) :: kvs))
  = 123%N :: QuoteJSONString k ++ 58%N :: JSON_stringify x
      ++ more_members kvs ++ [125%N].
Proof. reflexivity. Qed.

Lemma int_to_string_head (z : Z) :
  ∃ c tl, int_to_string z = c :: tl ∧ (c = 45%N ∨ is_digit c = true).
Proof.
  unfold int_to_string, minus_sign.
  destruct (z <? 0)%Z.
  { destruct (_ <? _)%Z; eexists _, _; (split; [reflexivity | by left]). }
  destruct (Z.ltb_spec (Z.abs z) (10 ^ 21)) as [Hz | Hz].
  - destruct (digits_nonempty (Z.abs_N z)) as (c & tl & -> & Hc).
    exists c, tl. split; [reflexivity | by right].
  - assert (Z.abs_N z ≠ 0%N) as Hn by lia.
    destruct (strip_digits (Z.abs_N z) Hn) as (c & tl & j & -> & Hc & _).
    eexists c, _. split; [reflexivity |]. right. apply is_digit_bounds. lia.
Qed.

(** The first code unit of the text of a value is neither white space
    nor a closing bracket or brace. *)
Lemma JSON_stringify_head (v : value) :
  plain v = true →
  ∃ c tl, JSON_stringify v = c :: tl
          ∧ is_json_ws c = false ∧ c ≠ 93%N ∧ c ≠ 125%N.
Proof.
  destruct v as [| [|] | z | m e | s | [|x xs] | [|[k x] kvs]]; intros Hv;
    try discriminate Hv;
    try (eexists _, _; split; [reflexivity |]; repeat split; discriminate).
  cbn [JSON_stringify].
  destruct (int_to_string_head z) as (c & tl & -> & [-> | Hc%is_digit_bounds]).
  - eexists _, _; split; [reflexivity |]; repeat split; discriminate.
  - exists c, tl. split; [reflexivity |].
    unfold is_json_ws.
    destruct (N.eqb_spec c 32), (N.eqb_spec c 9), (N.eqb_spec c 10),
      (N.eqb_spec c 13); repeat split; try lia; done.
Qed.

(** How [parse_value] starts, by the first code unit. *)
Lemma parse_value_open_bracket (f : nat) (s : jsstring) :
  (∃ c tl, s = c :: tl ∧ is_json_ws c = false ∧ c ≠ 93%N) →
  parse_value (S f) (91%N :: s) = parse_elements f s [].
Proof.
  intros (c & tl & -> & Hws & Hc).
  cbn [parse_value skip_ws is_json_ws N.eqb Pos.eqb orb].
  rewrite Hws. by destruct (N.eqb_spec c 93).
Qed.

Lemma parse_value_open_brace (f : nat) (s : jsstring) :
  parse_value (S f) (123 :: 34 :: s)%N = parse_members f (34%N :: s) [].
Proof. reflexivity. Qed.

Lemma parse_value_quote (f : nat) (s : jsstring) :
  parse_value (S f) (34%N :: s)
  = '(str, rest) ← parse_chars s; Some (VStr str, rest).
Proof. reflexivity. Qed.

Lemma parse_value_number (f : nat) (c : N) (tl : jsstring) :
  c = 45%N ∨ is_digit c = true →
  parse_value (S f) (c :: tl) = parse_number (c :: tl).
Proof.
  intros [-> | Hc%is_digit_bounds]; [reflexivity |].
  assert (is_json_ws c = false) as Hws.
  { unfold is_json_ws.
    destruct (N.eqb_spec c 32), (N.eqb_spec c 9), (N.eqb_spec c 10),
      (N.eqb_spec c 13); try lia; reflexivity. }
  cbn [parse_value skip_ws]. rewrite Hws.
  repeat match goal with
         | |- context [(c =? ?k)%N] => destruct (N.eqb_spec c k); [lia |]
         end.
  reflexivity.
Qed.

Lemma parse_elements_S (f : nat) (s : jsstring) (acc : list value) :
  parse_elements (S f) s acc
  = match parse_value f s with
    | None => None
    | Some (x, rest) =>
        match skip_ws rest with
        | c :: rest' =>
            if (c =? 44)%N then parse_elements f rest' (acc ++ [x])
            else if (c =? 93)%N then Some (VArr (acc ++ [x]), rest')
            else None
        | [] => None
        end
    end.
Proof. reflexivity. Qed.

Lemma parse_members_S (f : nat) (s : jsstring) (acc : list (jsstring * value)) :
  parse_members (S f) (34%N :: s) acc
  = match parse_chars s with
    | None => None
    | Some (k, s2) =>
        match skip_ws s2 with
        | colon :: s3 =>
            if (colon =? 58)%N then
              match parse_value f s3 with
              | None => None
              | Some (x, rest) =>
                  match skip_ws rest with
                  | c :: rest' =>
                      if (c =? 44)%N then
                        parse_members f rest' (set_property k x acc)
                      else if (c =? 125)%N then
                        Some (VObj (set_property k x acc), rest')
                      else None
                  | [] => None
                  end
              end
            else None
        | [] => None
        end
    end.
Proof. reflexivity. Qed.

Lemma set_property_fresh (k : jsstring) (v : value) (kvs : list (jsstring * value)) :
  k ∉ kvs.*1 → set_property k v kvs = kvs ++ [(k, v)].
Proof.
  induction kvs as [|[k' v'] kvs IH]; intros Hk; [done |].
  rewrite fmap_cons, not_elem_of_cons in Hk. destruct Hk as [Hk Hkvs].
  simpl. destruct (decide (k' = k)) as [-> | _]; [done |].
  by rewrite IH.
Qed.

(** The elements of an array, from one of them on. *)
Lemma parse_elements_stringify (xs : list value) :
  ∀ x acc f rest,
    Forall reads_back (x :: xs) →
    forallb plain (x :: xs) = true →
    foldr (fun x n => S (need x + n)) 0%nat (x :: xs) ≤ f →
    parse_elements f (JSON_stringify x ++ more_elements xs ++ 93%N :: rest) acc
    = Some (VArr (acc ++ x :: xs), rest).
Proof.
  induction xs as [|y l IH]; intros x acc f rest HP Hpl Hf.
  - apply Forall_cons in HP as [Hx _].
    cbn [forallb] in Hpl. apply andb_true_iff in Hpl as [Hpx _].
    cbn [foldr] in Hf. destruct f as [|f]; [lia |].
    rewrite parse_elements_S.
    cbn [more_elements app].
    rewrite (Hx f (93%N :: rest) Hpx) by (lia || (right; by left)).
    reflexivity.
  - apply Forall_cons in HP as [Hx HP].
    cbn [forallb] in Hpl. apply andb_true_iff in Hpl as [Hpx Hpl].
    cbn [foldr] in Hf. destruct f as [|f]; [lia |].
    rewrite parse_elements_S.
    cbn [more_elements]. rewrite <- app_comm_cons.
    rewrite (Hx f _ Hpx) by (lia || by left).
    cbn [skip_ws is_json_ws N.eqb Pos.eqb orb].
    rewrite <- app_assoc.
    rewrite (IH y (acc ++ [x]) f rest HP Hpl) by (cbn [foldr]; lia).
    by rewrite <- app_assoc.
Qed.

(** The members of an object, from one of them on. *)
Lemma parse_members_stringify (kvs : list (jsstring * value)) :
  ∀ k x acc f rest,
    Forall (fun kv => reads_back kv.2) ((k, x) :: kvs) →
    forallb (fun kv => plain kv.2) ((k, x) :: kvs) = true →
    NoDup (acc.*1 ++ ((k, x) :: kvs).*1) →
    foldr (fun kv n => S (need kv.2 + n)) 0%nat ((k, x) :: kvs) ≤ f →
    parse_members f
      (QuoteJSONString k ++ 58%N :: JSON_stringify x
         ++ more_members kvs ++ 125%N :: rest) acc
    = Some (VObj (acc ++ (k, x) :: kvs), rest).
Proof.
  induction kvs as [|[k' y] l IH]; intros k x acc f rest HP Hpl Hnd Hf.
  - apply Forall_cons in HP as [Hx _]. cbn [snd] in Hx.
    cbn [forallb snd] in Hpl. apply andb_true_iff in Hpl as [Hpx _].
    cbn [foldr snd] in Hf. destruct f as [|f]; [lia |].
    unfold QuoteJSONString. cbn [app]. rewrite parse_members_S.
    rewrite <- app_assoc. cbn [app].
    rewrite parse_chars_quote_units.
    cbn [skip_ws is_json_ws N.eqb Pos.eqb orb more_members app].
    rewrite (Hx f (125%N :: rest) Hpx) by (lia || (right; by right)).
    cbn [skip_ws is_json_ws N.eqb Pos.eqb orb].
    rewrite set_property_fresh; [done |].
    apply NoDup_app in Hnd as (_ & Hnd & _).
    intros Hin. apply (Hnd k Hin). constructor.
  - apply Forall_cons in HP as [Hx HP]. cbn [snd] in Hx.
    cbn [forallb snd] in Hpl. apply andb_true_iff in Hpl as [Hpx Hpl].
    cbn [foldr snd] in Hf. destruct f as [|f]; [lia |].
    unfold QuoteJSONString at 1. cbn [app]. rewrite parse_members_S.
    rewrite <- app_assoc. cbn [app].
    rewrite parse_chars_quote_units.
    cbn [skip_ws is_json_ws N.eqb Pos.eqb orb more_members].
    rewrite <- app_comm_cons.
    rewrite (Hx f _ Hpx) by (lia || by left).
    cbn [skip_ws is_json_ws N.eqb Pos.eqb orb].
    assert (k ∉ acc.*1) as Hk.
    { apply NoDup_app in Hnd as (_ & Hnd & _).
      intros Hin. apply (Hnd k Hin). constructor. }
    rewrite set_property_fresh by done.
    assoc_right.
    rewrite (IH k' y (acc ++ [(k, x)]) f rest HP Hpl).
    + by rewrite <- app_assoc.
    + rewrite fmap_app, <- app_assoc. exact Hnd.
    + cbn [foldr snd]. lia.
Qed.

(** What [JSON.stringify] writes for a plain value, [parse_value] reads
    back, given fuel enough. *)
Lemma parse_value_stringify (v : value) : reads_back v.
Proof.
  induction v as [| b | z | m e | s | xs IH | kvs IH] using value_nested_ind;
    intros fuel rest Hp Hf Hd; (destruct fuel as [|f]; [simpl in Hf; lia |]).
  - reflexivity.
  - by destruct b.
  - cbn [JSON_stringify].
    pose proof (parse_number_int z rest (delimited_ends_number rest Hd)) as Hn.
    destruct (int_to_string_head z) as (c & tl & E & Hc).
    rewrite E in Hn |- *. cbn [app] in Hn |- *.
    by rewrite parse_value_number.
  - discriminate.
  - cbn [JSON_stringify]. unfold QuoteJSONString. assoc_right.
    by rewrite parse_value_quote, parse_chars_quote_units.
  - destruct xs as [|x xs]; [reflexivity |].
    rewrite JSON_stringify_array. assoc_right.
    rewrite parse_value_open_bracket.
    + apply (parse_elements_stringify xs x [] f rest IH Hp).
      cbn [need] in Hf. lia.
    + destruct (JSON_stringify_head x) as (c & tl & E & Hws & H93 & _).
      { cbn [plain forallb] in Hp. by apply andb_true_iff in Hp as [? _]. }
      rewrite E. by eexists _, _.
  - destruct kvs as [|[k x] kvs]; [reflexivity |].
    cbn [plain] in Hp. apply andb_true_iff in Hp as [Hnd Hp].
    apply bool_decide_eq_true in Hnd.
    pose proof (parse_members_stringify kvs k x [] f rest IH Hp Hnd) as G.
    revert G. rewrite JSON_stringify_object. unfold QuoteJSONString.
    assoc_right. intros G. rewrite parse_value_open_brace.
    apply G. cbn [need] in Hf. lia.
Qed.

Lemma need_more_elements (xs : list value) :
  Forall (fun v => plain v = true → need v ≤ length (JSON_stringify v)) xs →
  forallb plain xs = true →
  foldr (fun x n => S (need x + n)) 0%nat xs ≤ length (more_elements xs).
Proof.
  induction 1 as [|x xs Hx _ IH]; intros Hp; [done |].
  cbn [forallb] in Hp. apply andb_true_iff in Hp as [Hpx Hp].
  cbn [foldr more_elements length]. rewrite length_app.
  specialize (Hx Hpx). specialize (IH Hp). lia.
Qed.

Lemma need_more_members (kvs : list (jsstring * value)) :
  Forall (fun kv => plain kv.2 = true → need kv.2 ≤ length (JSON_stringify kv.2)) kvs →
  forallb (fun kv => plain kv.2) kvs = true →
  foldr (fun kv n => S (need kv.2 + n)) 0%nat kvs ≤ length (more_members kvs).
Proof.
  induction 1 as [|[k x] kvs Hx _ IH]; intros Hp; [done |].
  cbn [forallb snd] in Hp. apply andb_true_iff in Hp as [Hpx Hp].
  cbn [foldr more_members length snd] in *.
  rewrite length_app. cbn [length]. rewrite length_app.
  specialize (Hx Hpx). specialize (IH Hp). lia.
Qed.

(** The length of the text is fuel enough. *)
Lemma need_le_length (v : value) :
  plain v = true → need v ≤ length (JSON_stringify v).
Proof.
  induction v as [| b | z | m e | s | xs IH | kvs IH] using value_nested_ind;
    intros Hp.
  - simpl. lia.
  - destruct b; simpl; lia.
  - destruct (int_to_string_head z) as (c & tl & E & _).
    cbn [JSON_stringify need]. rewrite E. simpl. lia.
  - discriminate.
  - simpl. lia.
  - destruct xs as [|x xs]; [simpl; lia |].
    rewrite JSON_stringify_array.
    apply Forall_cons in IH as [Hx IH].
    cbn [plain forallb] in Hp. apply andb_true_iff in Hp as [Hpx Hp].
    pose proof (need_more_elements xs IH Hp). specialize (Hx Hpx).
    cbn [need foldr length]. rewrite !length_app. cbn [length]. lia.
  - destruct kvs as [|[k x] kvs]; [simpl; lia |].
    rewrite JSON_stringify_object.
    apply Forall_cons in IH as [Hx IH]. cbn [snd] in Hx.
    cbn [plain] in Hp. apply andb_true_iff in Hp as [_ Hp].
    cbn [forallb snd] in Hp. apply andb_true_iff in Hp as [Hpx Hp].
    pose proof (need_more_members kvs IH Hp). specialize (Hx Hpx).
    cbn [need foldr length snd]. rewrite length_app. cbn [length].
    rewrite !length_app. cbn [length]. lia.
Qed.

(** [JSON.parse(JSON.stringify(v))] is [v], for a plain value [v]. *)
Lemma JSON_parse_stringify (v : value) :
  plain v = true → JSON_parse (JSON_stringify v) = Ok v.
Proof.
  intros Hp. unfold JSON_parse.
  pose proof (parse_value_stringify v (S (length (JSON_stringify v))) [] Hp) as H.
  rewrite app_nil_r in H. rewrite H; [done | | done].
  pose proof (need_le_length v Hp). lia.
Qed.

(* ================================================================== *)
(** * The fuel of the parser is never short *)
(* ================================================================== *)

(** A call that succeeds reads at least one code unit, and succeeds with
    the same result on any fuel that is at least the number of code units
    it reads.  So [JSON_parse], which gives the length of the text plus
    one, fails only on a text that no fuel parses. *)

Lemma skip_ws_length (s : jsstring) : length (skip_ws s) ≤ length s.
Proof.
  induction s as [|c s IH]; simpl; [done |].
  destruct (is_json_ws c); simpl; lia.
Qed.

Lemma span_digits_length (s : jsstring) :
  length s = (length (span_digits s).1 + length (span_digits s).2)%nat.
Proof.
  induction s as [|c s IH]; simpl; [done |].
  destruct (is_digit c); [| done].
  destruct (span_digits s) as [ds rest]. simpl in *. lia.
Qed.

Lemma strip_prefix_length (p s rest : jsstring) :
  strip_prefix p s = Some rest → length rest ≤ length s.
Proof.
  revert s. induction p as [|a p IH]; intros [|b s] H; simpl in *;
    try discriminate; try (injection H as <-; simpl; lia).
  destruct (a =? b)%N; [| discriminate].
  apply IH in H. lia.
Qed.

Lemma parse_chars_length (n : nat) :
  ∀ s str rest,
    length s ≤ n → parse_chars s = Some (str, rest) → length rest < length s.
Proof.
  induction n as [|n IH]; intros [|c s] str rest Hn H; simpl in Hn;
    try discriminate; try lia.
  cbn [parse_chars] in H.
  destruct (c =? 34)%N; [injection H as <- <-; simpl; lia |].
  destruct (c =? 92)%N.
  - destruct s as [|e s]; [discriminate |].
    destruct (e =? 117)%N.
    + destruct s as [|h3 [|h2 [|h1 [|h0 s]]]]; try discriminate.
      destruct (hex_value h3), (hex_value h2), (hex_value h1), (hex_value h0);
        try discriminate.
      destruct (parse_chars s) as [[r rest'] |] eqn:E; [| discriminate].
      injection H as <- <-. apply IH in E; simpl in *; lia.
    + destruct (escape_value e); [| discriminate].
      destruct (parse_chars s) as [[r rest'] |] eqn:E; [| discriminate].
      injection H as <- <-. apply IH in E; simpl in *; lia.
  - destruct (c <? 32)%N; [discriminate |].
    destruct (parse_chars s) as [[r rest'] |] eqn:E; [| discriminate].
    injection H as <- <-. apply IH in E; simpl in *; lia.
Qed.

Lemma parse_number_length (s : jsstring) (v : value) (rest : jsstring) :
  parse_number s = Some (v, rest) → length rest < length s.
Proof.
  unfold parse_number. intros H.
  destruct (parse_sign s) as [negative s1] eqn:E1.
  assert (length s1 ≤ length s) as H1.
  { unfold parse_sign in E1. destruct s as [|c s]; [by injection E1 as <- <- |].
    destruct (c =? 45)%N; injection E1 as <- <-; simpl; lia. }
  destruct (parse_int_part s1) as [[int_ds s2] |] eqn:E2; [| discriminate].
  assert (length s2 < length s1) as H2.
  { unfold parse_int_part in E2. destruct s1 as [|c s1']; [discriminate |].
    destruct (c =? 48)%N; [injection E2 as <- <-; simpl; lia |].
    destruct (is_digit c) eqn:Hc; [| discriminate].
    assert (span_digits (c :: s1') = (int_ds, s2)) as E by congruence.
    pose proof (span_digits_length (c :: s1')) as Hl. rewrite E in Hl.
    cbn [span_digits] in E. rewrite Hc in E.
    destruct (span_digits s1') as [ds r].
    injection E as <- <-. simpl in *. lia. }
  cbn [mbind option_bind] in H.
  destruct (parse_frac_part s2) as [[frac_ds s3] |] eqn:E3; [| discriminate].
  assert (length s3 ≤ length s2) as H3.
  { unfold parse_frac_part in E3. destruct s2 as [|c s2']; [by injection E3 as <- <- |].
    destruct (c =? 46)%N; [| by injection E3 as <- <-].
    pose proof (span_digits_length s2') as Hl.
    destruct (span_digits s2') as [ds r]. destruct ds; [discriminate |].
    injection E3 as <- <-. simpl in *. lia. }
  cbn [mbind option_bind] in H.
  destruct (parse_exp_part s3) as [[exponent s4] |] eqn:E4; [| discriminate].
  assert (length s4 ≤ length s3) as H4.
  { unfold parse_exp_part in E4. destruct s3 as [|c s3']; [by injection E4 as <- <- |].
    destruct ((c =? 101)%N || (c =? 69)%N); [| by injection E4 as <- <-].
    assert (∃ t, length t ≤ length s3'
                 ∧ match (span_digits t).1 with
                   | [] => None
                   | _ :: _ => Some (span_digits t).2
                   end = Some s4) as (t & Ht & E).
    { destruct s3' as [|c' t'].
      - exists []. split; [done |]. simpl in *. discriminate.
      - destruct (c' =? 45)%N; [| destruct (c' =? 43)%N].
        + exists t'. split; [simpl; lia |].
          destruct (span_digits t') as [[|d ds] r]; [discriminate |].
          by injection E4 as <- <-.
        + exists t'. split; [simpl; lia |].
          destruct (span_digits t') as [[|d ds] r]; [discriminate |].
          by injection E4 as <- <-.
        + exists (c' :: t'). split; [done |].
          destruct (span_digits (c' :: t')) as [[|d ds] r]; [discriminate |].
          by injection E4 as <- <-. }
    pose proof (span_digits_length t) as Hl.
    destruct (span_digits t).1; [discriminate |].
    injection E as <-. simpl in *. lia. }
  cbn [mbind option_bind] in H. injection H as <- <-. lia.
Qed.

Lemma parse_value_S (f : nat) (s : jsstring) :
  parse_value (S f) s
  = match skip_ws s with
    | [] => None
    | c :: s' =>
        if (c =? 123)%N then
          match skip_ws s' with
          | c' :: s'' =>
              if (c' =? 125)%N then Some (VObj [], s'')
              else parse_members f s' []
          | [] => None
          end
        else if (c =? 91)%N then
          match skip_ws s' with
          | c' :: s'' =>
              if (c' =? 93)%N then Some (VArr [], s'')
              else parse_elements f s' []
          | [] => None
          end
        else if (c =? 34)%N then
          '(str, rest) ← parse_chars s'; Some (VStr str, rest)
        else if (c =? 116)%N then
          rest ← strip_prefix (u16 "rue") s'; Some (VBool true, rest)
        else if (c =? 102)%N then
          rest ← strip_prefix (u16 "alse") s'; Some (VBool false, rest)
        else if (c =? 110)%N then
          rest ← strip_prefix (u16 "ull") s'; Some (VNull, rest)
        else parse_number (c :: s')
    end.
Proof. reflexivity. Qed.

Lemma parse_members_S_ws (f : nat) (s : jsstring) (acc : list (jsstring * value)) :
  parse_members (S f) s acc
  = match skip_ws s with
    | q :: s1 =>
        if (q =? 34)%N then
          match parse_chars s1 with
          | None => None
          | Some (k, s2) =>
              match skip_ws s2 with
              | colon :: s3 =>
                  if (colon =? 58)%N then
                    match parse_value f s3 with
                    | None => None
                    | Some (x, rest) =>
                        match skip_ws rest with
                        | c :: rest' =>
                            if (c =? 44)%N then
                              parse_members f rest' (set_property k x acc)
                            else if (c =? 125)%N then
                              Some (VObj (set_property k x acc), rest')
                            else None
                        | [] => None
                        end
                    end
                  else None
              | [] => None
              end
          end
        else None
    | [] => None
    end.
Proof. reflexivity. Qed.

Lemma parse_fuel_steady (f : nat) :
  (∀ s r rest,
     parse_value f s = Some (r, rest) →
     length rest < length s
     ∧ ∀ f', length s - length rest ≤ f' → parse_value f' s = Some (r, rest))
  ∧ (∀ s acc r rest,
       parse_elements f s acc = Some (r, rest) →
       length rest < length s
       ∧ ∀ f', length s - length rest ≤ f' →
               parse_elements f' s acc = Some (r, rest))
  ∧ (∀ s acc r rest,
       parse_members f s acc = Some (r, rest) →
       length rest < length s
       ∧ ∀ f', length s - length rest ≤ f' →
               parse_members f' s acc = Some (r, rest)).
Proof.
  induction f as [|f (IHv & IHe & IHm)]; [by repeat split |].
  split; [| split].
  - (* a value *)
    intros s r rest H. rewrite parse_value_S in H.
    pose proof (skip_ws_length s) as Hs.
    destruct (skip_ws s) as [|c s'] eqn:Es; [discriminate |]. cbn [length] in Hs.
    destruct (c =? 123)%N eqn:E1.
    { pose proof (skip_ws_length s') as Hs'.
      destruct (skip_ws s') as [|c' s''] eqn:Es'; [discriminate |].
      cbn [length] in Hs'.
      destruct (c' =? 125)%N eqn:E2.
      - injection H as <- <-. split; [lia |].
        intros [|f'] Hf'; [lia |]. by rewrite parse_value_S, Es, E1, Es', E2.
      - apply IHm in H as [Hlen Hf]. split; [lia |].
        intros [|f'] Hf'; [lia |]. rewrite parse_value_S, Es, E1, Es', E2.
        apply Hf. lia. }
    destruct (c =? 91)%N eqn:E2.
    { pose proof (skip_ws_length s') as Hs'.
      destruct (skip_ws s') as [|c' s''] eqn:Es'; [discriminate |].
      cbn [length] in Hs'.
      destruct (c' =? 93)%N eqn:E3.
      - injection H as <- <-. split; [lia |].
        intros [|f'] Hf'; [lia |]. by rewrite parse_value_S, Es, E1, E2, Es', E3.
      - apply IHe in H as [Hlen Hf]. split; [lia |].
        intros [|f'] Hf'; [lia |]. rewrite parse_value_S, Es, E1, E2, Es', E3.
        apply Hf. lia. }
    assert (length rest ≤ length s') as Hlen.
    { destruct (c =? 34)%N.
      { destruct (parse_chars s') as [[str rest'] |] eqn:Ec; [| discriminate].
        injection H as <- <-.
        apply (parse_chars_length (length s')) in Ec; lia. }
      destruct (c =? 116)%N.
      { destruct (strip_prefix _ s') as [rest' |] eqn:Ep; [| discriminate].
        injection H as <- <-. by apply strip_prefix_length in Ep. }
      destruct (c =? 102)%N.
      { destruct (strip_prefix _ s') as [rest' |] eqn:Ep; [| discriminate].
        injection H as <- <-. by apply strip_prefix_length in Ep. }
      destruct (c =? 110)%N.
      { destruct (strip_prefix _ s') as [rest' |] eqn:Ep; [| discriminate].
        injection H as <- <-. by apply strip_prefix_length in Ep. }
      apply parse_number_length in H. simpl in H. lia. }
    split; [lia |].
    intros [|f'] Hf'; [lia |]. by rewrite parse_value_S, Es, E1, E2.
  - (* the elements of an array *)
    intros s acc r rest H. rewrite parse_elements_S in H.
    destruct (parse_value f s) as [[x r1] |] eqn:Ev; [| discriminate].
    apply IHv in Ev as [Hl1 Hv].
    pose proof (skip_ws_length r1) as Hs.
    destruct (skip_ws r1) as [|c r2] eqn:Es; [discriminate |]. cbn [length] in Hs.
    destruct (c =? 44)%N eqn:E1.
    { apply IHe in H as [Hl2 He]. split; [lia |].
      intros [|f'] Hf'; [lia |].
      rewrite parse_elements_S, Hv by lia. rewrite Es, E1. apply He. lia. }
    destruct (c =? 93)%N eqn:E2; [| discriminate].
    injection H as <- <-. split; [lia |].
    intros [|f'] Hf'; [lia |].
    rewrite parse_elements_S, Hv by lia. by rewrite Es, E1, E2.
  - (* the members of an object *)
    intros s acc r rest H. rewrite parse_members_S_ws in H.
    pose proof (skip_ws_length s) as Hs.
    destruct (skip_ws s) as [|q s1] eqn:Es; [discriminate |]. cbn [length] in Hs.
    destruct (q =? 34)%N eqn:E1; [| discriminate].
    destruct (parse_chars s1) as [[k s2] |] eqn:Ec; [| discriminate].
    pose proof (parse_chars_length (length s1) s1 k s2 ltac:(lia) Ec) as Hc.
    pose proof (skip_ws_length s2) as Hs2.
    destruct (skip_ws s2) as [|colon s3] eqn:Es2; [discriminate |].
    cbn [length] in Hs2.
    destruct (colon =? 58)%N eqn:E2; [| discriminate].
    destruct (parse_value f s3) as [[x r1] |] eqn:Ev; [| discriminate].
    apply IHv in Ev as [Hl1 Hv].
    pose proof (skip_ws_length r1) as Hs3.
    destruct (skip_ws r1) as [|c r2] eqn:Es3; [discriminate |].
    cbn [length] in Hs3.
    destruct (c =? 44)%N eqn:E3.
    { apply IHm in H as [Hl2 Hm]. split; [lia |].
      intros [|f'] Hf'; [lia |].
      rewrite parse_members_S_ws, Es, E1, Ec, Es2, E2, Hv by lia.
      rewrite Es3, E3. apply Hm. lia. }
    destruct (c =? 125)%N eqn:E4; [| discriminate].
    injection H as <- <-. split; [lia |].
    intros [|f'] Hf'; [lia |].
    rewrite parse_members_S_ws, Es, E1, Ec, Es2, E2, Hv by lia.
    by rewrite Es3, E3, E4.
Qed.

(** If some fuel parses the text, [JSON.parse] returns the value. *)
Lemma JSON_parse_any_fuel (text : jsstring) (f : nat) (v : value) (rest : jsstring) :
  parse_value f text = Some (v, rest) → skip_ws rest = [] →
  JSON_parse text = Ok v.
Proof.
  intros H Hrest. unfold JSON_parse.
  apply (proj1 (parse_fuel_steady f)) in H as [_ H].
  rewrite (H (S (length text))) by lia. by rewrite Hrest.
Qed.

(** [JSON.parse] throws exactly on the texts that are not one JSON value
    with white space around it, whatever the fuel. *)
Lemma JSON_parse_throws_iff (text : jsstring) :
  JSON_parse text = Throw SyntaxError
  ↔ ∀ f v rest, parse_value f text = Some (v, rest) → skip_ws rest ≠ [].
Proof.
  split.
  - intros Hthrow f v rest H Hrest.
    by rewrite (JSON_parse_any_fuel text f v rest H Hrest) in Hthrow.
  - intros Hno. unfold JSON_parse.
    destruct (parse_value (S (length text)) text) as [[v rest] |] eqn:E; [| done].
    specialize (Hno _ _ _ E). by destruct (skip_ws rest).
Qed.

(* ================================================================== *)
(** * The persisted slot *)
(* ================================================================== *)

(** ** Documents as values *)

Lemma plain_nullable (o : option jsstring) : plain (of_nullable o) = true.
Proof. by destruct o. Qed.

Lemma plain_Member (m : Member) : plain (Member_to_value m) = true.
Proof.
  unfold Member_to_value. cbn [plain forallb snd].
  by rewrite plain_nullable.
Qed.

Lemma plain_Idea (i : Idea) : plain (Idea_to_value i) = true.
Proof.
  unfold Idea_to_value. cbn [plain forallb snd].
  by rewrite plain_nullable.
Qed.

Lemma forallb_fmap_plain {A} (f : A → value) (l : list A) :
  (∀ x, plain (f x) = true) → forallb plain (f <$> l) = true.
Proof.
  intros Hf. induction l as [|x l IH]; [done |].
  rewrite fmap_cons. cbn [forallb]. by rewrite Hf, IH.
Qed.

Lemma plain_Document (d : Document) : plain (Document_to_value d) = true.
Proof.
  unfold Document_to_value. cbn [plain forallb snd].
  rewrite (forallb_fmap_plain _ _ plain_Member).
  rewrite (forallb_fmap_plain _ _ plain_Idea).
  reflexivity.
Qed.

Lemma Member_of_to_value (m : Member) : Member_of_value (Member_to_value m) = Some m.
Proof. by destruct m as [z n p w [ph |]]. Qed.

Lemma Idea_of_to_value (i : Idea) : Idea_of_value (Idea_to_value i) = Some i.
Proof. by destruct i as [z t ds [im |] st su]. Qed.

Lemma mapM_of_to_value {A} (f : A → value) (g : value → option A) (l : list A) :
  (∀ x, g (f x) = Some x) → mapM g (f <$> l) = Some l.
Proof.
  intros Hgf. induction l as [|x l IH]; [done |].
  rewrite fmap_cons. cbn [mapM]. rewrite Hgf. cbn [mbind option_bind].
  rewrite IH. reflexivity.
Qed.

(** A document is read back from its value. *)
Lemma Document_of_to_value (d : Document) :
  Document_of_value (Document_to_value d) = Some d.
Proof.
  destruct d as [n ds ms l]. unfold Document_of_value, Document_to_value.
  cbn [get get_property]. simpl.
  rewrite (mapM_of_to_value _ _ ms Member_of_to_value). simpl.
  rewrite (mapM_of_to_value _ _ l Idea_of_to_value). reflexivity.
Qed.

Lemma truthy_stringify_Document (d : Document) :
  truthy (JSON_stringify (Document_to_value d)) = true.
Proof. reflexivity. Qed.

(** ** Saving and loading again *)

Lemma save_accepted (d : Document) (ls : Storage) :
  accepts ls LS_KEY (JSON_stringify (Document_to_value d)) = true →
  getItem (save d ls) LS_KEY = Some (JSON_stringify (Document_to_value d)).
Proof.
  intros Hacc. unfold save, useLocalStorageState_effect, setItem.
  rewrite Hacc. unfold getItem. cbn [try_catch items].
  apply lookup_insert_eq.
Qed.

(** C8: when the store takes the write, loading after saving [d] gives
    the value of [d]: read as a
    document it is [d] itself, and its name, description, members and
    ideas are those of [d].  In terms of the hook: after a render with
    state [d], a component mounted anew starts from [d]. *)
Theorem load_save_round_trip (d : Document) (ls : Storage) :
  accepts ls LS_KEY (JSON_stringify (Document_to_value d)) = true →
  load (save d ls) = Document_to_value d
  ∧ Document_of_value (load (save d ls)) = Some d
  ∧ get (u16 "sanghName") (load (save d ls)) = Some (VStr (sanghName d))
  ∧ get (u16 "description") (load (save d ls)) = Some (VStr (description d))
  ∧ get (u16 "members") (load (save d ls))
    = Some (VArr (Member_to_value <$> members d))
  ∧ get (u16 "ideas") (load (save d ls))
    = Some (VArr (Idea_to_value <$> ideas d))
  ∧ (useLocalStorageState LS_KEY (Document_to_value seed) None
       (useLocalStorageState LS_KEY (Document_to_value seed)
          (Some (Document_to_value d)) ls).2).1
    = Document_to_value d.
Proof.
  intros Hacc.
  assert (load (save d ls) = Document_to_value d) as E.
  { unfold load, useLocalStorageState_init.
    rewrite (save_accepted d ls Hacc), truthy_stringify_Document.
    by rewrite (JSON_parse_stringify _ (plain_Document d)). }
  change (load (save d ls) = Document_to_value d
          ∧ Document_of_value (load (save d ls)) = Some d
          ∧ get (u16 "sanghName") (load (save d ls)) = Some (VStr (sanghName d))
          ∧ get (u16 "description") (load (save d ls))
            = Some (VStr (description d))
          ∧ get (u16 "members") (load (save d ls))
            = Some (VArr (Member_to_value <$> members d))
          ∧ get (u16 "ideas") (load (save d ls))
            = Some (VArr (Idea_to_value <$> ideas d))
          ∧ load (save d ls) = Document_to_value d).
  rewrite E. split; [done |]. split; [apply Document_of_to_value |].
  by repeat split.
Qed.

(** A document with a member and a marked idea, saved to an empty store
    and loaded again. *)
Lemma load_save_round_trip_witness :
  Document_of_value (load (save small_document roomy_store)) = Some small_document.
Proof.
  apply (load_save_round_trip small_document roomy_store).
  vm_compute. reflexivity.
Defined.

(** ** Failures of the store *)

(** C9: when the slot is absent, and when its text cannot be parsed
    ([JSON.parse] throws, which it does exactly when no fuel makes the
    parser read the text as one value), [load] returns the seed document
    (the default name and description, no members, no ideas): the
    exception is caught and [load] returns a value in every case.  When
    the store refuses a write, the effect leaves the store as it was and
    the state of the component is untouched. *)
Theorem load_falls_back_to_seed (ls : Storage) :
  (getItem ls LS_KEY = None → load ls = Document_to_value seed)
  ∧ (∀ text e,
       getItem ls LS_KEY = Some text → JSON_parse text = Throw e →
       load ls = Document_to_value seed)
  ∧ (∀ text,
       getItem ls LS_KEY = Some text →
       (∀ f v rest, parse_value f text = Some (v, rest) → skip_ws rest ≠ []) →
       load ls = Document_to_value seed)
  ∧ Document_of_value (Document_to_value seed)
    = Some {| sanghName := seed_sanghName; description := seed_description;
              members := []; ideas := [] |}
  ∧ (∀ key initial state,
       accepts ls key (JSON_stringify state) = false →
       useLocalStorageState key initial (Some state) ls = (state, ls))
  ∧ (∀ d,
       accepts ls LS_KEY (JSON_stringify (Document_to_value d)) = false →
       save d ls = ls).
Proof.
  unfold load, save, useLocalStorageState, useLocalStorageState_init,
    useLocalStorageState_effect, setItem.
  split; [| split; [| split; [| split; [| split]]]].
  - by intros ->.
  - intros text e -> Hparse. rewrite Hparse. by destruct (truthy text).
  - intros text -> Hno%JSON_parse_throws_iff. rewrite Hno.
    by destruct (truthy text).
  - reflexivity.
  - intros key initial state Hacc. by rewrite Hacc.
  - intros d Hacc. by rewrite Hacc.
Qed.

(** An empty store; a store whose slot holds [{bad] and which refuses
    every write. *)
Lemma load_falls_back_to_seed_witness :
  load roomy_store = Document_to_value seed
  ∧ load broken_store = Document_to_value seed
  ∧ useLocalStorageState LS_KEY (Document_to_value seed)
      (Some (Document_to_value small_document)) broken_store
    = (Document_to_value small_document, broken_store).
Proof.
  split; [| split].
  - apply (proj1 (load_falls_back_to_seed roomy_store)). reflexivity.
  - apply (proj1 (proj2 (load_falls_back_to_seed broken_store))
             (u16 "{bad") SyntaxError); reflexivity.
  - apply (proj1 (proj2 (proj2 (proj2 (proj2 (load_falls_back_to_seed broken_store)))))).
    reflexivity.
Defined.

(* ================================================================== *)
(** * Further properties of the handlers *)
(* ================================================================== *)

(** ** Submitting twice *)

(** X1: a submission leaves its form either refused or empty, so a
    second submission with no edit in between is refused, whatever the
    clock reads: it shows the alert and changes nothing.  Submitting twice
    adds at most one member, and at most one idea. *)
Theorem second_submission_refused (now now' : Z) (iso iso' : jsstring) (a : App) :
  addMember now' (addMember now a).1
  = ((addMember now a).1, [Alert msg_name_required])
  ∧ submitIdea now' iso' (submitIdea now iso a).1
    = ((submitIdea now iso a).1, [Alert msg_title_required]).
Proof.
  split.
  - destruct (decide (trim (mf_name (memberForm a)) = [])) as [E | E].
    + rewrite (addMember_rejects now a E). by apply addMember_rejects.
    + rewrite (addMember_accepts now a E). by apply addMember_rejects.
  - destruct (decide (trim (if_title (ideaForm a)) = [])) as [E | E].
    + rewrite (submitIdea_rejects now iso a E). by apply submitIdea_rejects.
    + rewrite (submitIdea_accepts now iso a E). by apply submitIdea_rejects.
Qed.

(** ** Removing what was added *)

(** X2: when no member has the id [now], adding a member at clock
    reading [now] and removing the id [now] gives back the members there
    were (and the rest of the document). *)
Theorem removeMember_undoes_addMember (now : Z) (a : App) :
  now ∉ member_ids a →
  data (removeMember now true (addMember now a).1).1 = data a.
Proof.
  intros Hfresh.
  assert (∀ m, m ∈ members (data a) → m_id m ≠ now) as Hall.
  { intros m Hm E. apply Hfresh. unfold member_ids. rewrite <- E.
    by apply list_elem_of_fmap_2. }
  rewrite removeMember_confirmed. cbn [data].
  destruct (decide (trim (mf_name (memberForm a)) = [])) as [E | E].
  - rewrite (addMember_rejects now a E). cbn [fst].
    rewrite (filter_id_none m_id now _ Hall). by destruct (data a).
  - rewrite (addMember_accepts now a E). cbn [fst data with_members members].
    rewrite filter_app, (filter_id_none m_id now _ Hall).
    rewrite filter_cons_False by (intros H; by apply H).
    rewrite filter_nil, app_nil_r. by destruct (data a).
Qed.

(** Ravi, added at 09:51 to a list that has only the id of 09:50, and
    removed again. *)
Lemma removeMember_undoes_addMember_witness :
  members (data (removeMember t_0951 true (addMember t_0951 ravi_pending).1).1)
  = members (data ravi_pending).
Proof.
  refine (f_equal members (removeMember_undoes_addMember t_0951 ravi_pending _)).
  change (member_ids ravi_pending) with [t_0950].
  intros H. apply list_elem_of_singleton in H. discriminate.
Defined.

(** ** Removals and status changes, one after the other *)

(** X3: a confirmed removal done twice is the removal done once, and two
    confirmed removals give the same state in either order. *)
Theorem removeMember_twice_and_order (id id' : Z) (a : App) :
  (removeMember id true (removeMember id true a).1).1 = (removeMember id true a).1
  ∧ (removeMember id true (removeMember id' true a).1).1
    = (removeMember id' true (removeMember id true a).1).1.
Proof.
  rewrite !removeMember_confirmed. cbn [fst data memberForm ideaForm].
  unfold with_members. cbn [members sanghName description ideas].
  split; do 2 f_equal.
  - apply list_filter_filter_l. tauto.
  - rewrite !list_filter_filter. apply list_filter_iff. tauto.
Qed.

Lemma mark_order (id id' : Z) (i : Idea) :
  mark id (mark id' i) = mark id' (mark id i).
Proof.
  destruct (Z.eq_dec (i_id i) id) as [E | E], (Z.eq_dec (i_id i) id') as [E' | E'].
  - rewrite (mark_same id' i E'), (mark_same id i E).
    by rewrite !mark_taken.
  - rewrite (mark_other id' i E'), (mark_same id i E).
    symmetry. by apply mark_taken.
  - rewrite (mark_other id i E), (mark_same id' i E').
    by apply mark_taken.
  - by rewrite (mark_other id' i E'), (mark_other id i E), (mark_other id' i E').
Qed.

(** X4: two status changes give the same state in either order. *)
Theorem takeActionOnIdea_order (id id' : Z) (a : App) :
  takeActionOnIdea id (takeActionOnIdea id' a)
  = takeActionOnIdea id' (takeActionOnIdea id a).
Proof.
  unfold takeActionOnIdea, setData, with_ideas; simpl.
  do 2 f_equal. rewrite <- !list_fmap_compose.
  apply list_fmap_ext. intros _ i _. simpl. apply mark_order.
Qed.

(** ** What every stored member and idea satisfies *)

Lemma checked_newMember now f :
  trim (mf_name f) ≠ [] → checked_member (newMember now f).
Proof.
  intros H. split; [exact H |].
  unfold newMember, or_null. cbn [m_photo].
  by destruct (mf_photoDataUrl f).
Qed.

Lemma checked_newIdea now iso f :
  trim (if_title f) ≠ [] → checked_idea (newIdea now iso f).
Proof.
  intros H. split; [exact H |]. split; [| by left].
  unfold newIdea, or_null. cbn [i_image].
  by destruct (if_imageDataUrl f).
Qed.

Lemma checked_mark id i : checked_idea i → checked_idea (mark id i).
Proof.
  intros (Ht & Him & Hs). unfold mark.
  destruct (i_id i =? id)%Z; [| done].
  repeat split; try done. by right.
Qed.

Lemma handle_checked e a :
  checked_document (data a) → checked_document (data (handle e a)).
Proof.
  intros [Hm Hi]. destruct e; try done.
  - cbn [handle]. destruct (decide (trim (mf_name (memberForm a)) = [])) as [E | E].
    + by rewrite (addMember_rejects now a E).
    + rewrite (addMember_accepts now a E). split; [| done].
      apply Forall_app. split; [done |].
      apply Forall_singleton. by apply checked_newMember.
  - cbn [handle]. destruct (decide (trim (if_title (ideaForm a)) = [])) as [E | E].
    + by rewrite (submitIdea_rejects now iso a E).
    + rewrite (submitIdea_accepts now iso a E). split; [done |].
      apply Forall_cons. split; [by apply checked_newIdea | done].
  - split; [done |]. cbn [handle]. rewrite ideas_takeActionOnIdea.
    apply Forall_fmap. eapply Forall_impl; [exact Hi |].
    intros i. apply checked_mark.
  - cbn [handle]. destruct answer; [| done].
    rewrite removeMember_confirmed. split; [| done].
    apply Forall_forall. intros m [_ Hin]%list_elem_of_filter.
    by apply (proj1 (Forall_forall _ _) Hm).
Qed.

(** X5: the two checks and [|| null] hold of everything stored.  If every
    member has a name that is not blank and a photo that is [null] or a
    string that is not empty, and every idea a title that is not blank, an
    image of that kind and the status ["Open"] or ["Action Taken"], then
    the same is true after any session. *)
Theorem checked_document_kept (tr : list event) (a : App) :
  checked_document (data a) → checked_document (data (run tr a)).
Proof.
  revert a. induction tr as [|e tr IH]; intros a H; [done |].
  apply (IH (handle e a)). by apply handle_checked.
Qed.

(** From the seed every session gives a checked document. *)
Lemma checked_document_kept_witness :
  checked_document (data (run advancing_clock (mount seed))).
Proof.
  apply (checked_document_kept advancing_clock (mount seed)).
  split; constructor.
Defined.

(** ** The life of an idea *)

Lemma same_but_status_mark id i : same_but_status i (mark id i).
Proof. unfold mark. by destruct (i_id i =? id)%Z. Qed.

Lemma handle_keeps_ideas e a k i :
  reverse (ideas (data a)) !! k = Some i →
  ∃ i', reverse (ideas (data (handle e a))) !! k = Some i'
        ∧ same_but_status i i'
        ∧ (i_status i' = i_status i ∨ i_status i' = ActionTaken).
Proof.
  intros Hk.
  assert (∃ i', Some i = Some i' ∧ same_but_status i i'
                ∧ (i_status i' = i_status i ∨ i_status i' = ActionTaken)) as Hsame.
  { exists i. repeat split; by left. }
  destruct e; cbn [handle]; try (simpl; rewrite Hk; exact Hsame).
  - unfold addMember. destruct (negb _); simpl; rewrite Hk; exact Hsame.
  - unfold submitIdea. destruct (negb _); simpl; [rewrite Hk; exact Hsame |].
    rewrite reverse_cons, (lookup_app_l_Some _ _ _ _ Hk). exact Hsame.
  - rewrite ideas_takeActionOnIdea, <- fmap_reverse, list_lookup_fmap, Hk.
    exists (mark id i). split; [done |]. split; [apply same_but_status_mark |].
    unfold mark. destruct (i_id i =? id)%Z; [by right | by left].
  - unfold removeMember. destruct (negb _); simpl; rewrite Hk; exact Hsame.
Qed.

(** X6: an idea is never deleted, never moved and never edited: whatever
    the session, the idea found at a place (counted from the oldest one)
    is found there afterwards with the same id, title, description, image
    and [submittedAt]; its status is the same or has become
    ["Action Taken"]. *)
Theorem ideas_only_change_status (tr : list event) (a : App) (k : nat) (i : Idea) :
  reverse (ideas (data a)) !! k = Some i →
  ∃ i', reverse (ideas (data (run tr a))) !! k = Some i'
        ∧ same_but_status i i'
        ∧ (i_status i' = i_status i ∨ i_status i' = ActionTaken).
Proof.
  revert a i. induction tr as [|e tr IH]; intros a i Hk.
  - exists i. split; [exact Hk |]. split; [done | by left].
  - destruct (handle_keeps_ideas e a k i Hk) as (i1 & Hk1 & Hs1 & Hst1).
    destruct (IH (handle e a) i1 Hk1) as (i2 & Hk2 & Hs2 & Hst2).
    exists i2. split; [exact Hk2 |].
    destruct Hs1 as (? & ? & ? & ? & ?), Hs2 as (? & ? & ? & ? & ?).
    split; [repeat split; congruence |].
    destruct Hst1 as [<- | E1], Hst2 as [E2 | E2]; auto.
    right. congruence.
Qed.

(** The idea of scenario C through a later session of the member form and
    of the idea form. *)
Lemma ideas_only_change_status_witness :
  ∃ i', reverse (ideas (data (run advancing_clock fix_gate))) !! 0%nat = Some i'
        ∧ i_title i' = u16 "Fix gate"
        ∧ i_submittedAt i' = u16 "2024-05-01T10:00:00.000Z".
Proof.
  destruct (ideas_only_change_status advancing_clock fix_gate 0
              (mkIdea t_1000 (u16 "Fix gate") [] None Open
                 (u16 "2024-05-01T10:00:00.000Z")) eq_refl)
    as (i' & Hk & (_ & Ht & _ & _ & Hs) & _).
  exists i'. split; [exact Hk |]. split; [exact Ht | exact Hs].
Defined.

(** ** The life of a member *)

Lemma handle_members e a :
  match member_reading e a with
  | Some now =>
      members (data (handle e a)) = members (data a) ++ [newMember now (memberForm a)]
  | None =>
      members (data (handle e a)) `sublist_of` members (data a)
      ∧ (confirmed_removal e = false →
         members (data (handle e a)) = members (data a))
  end.
Proof.
  destruct e; simpl; try done.
  - unfold addMember. by destruct (truthy _).
  - unfold submitIdea. by destruct (negb _).
  - destruct answer; [| done]. rewrite removeMember_confirmed.
    split; [apply sublist_filter | done].
Qed.

(** X7: a member is never edited and never moved: after any session the
    members are, in this order, members there were at the start and
    members created by the submissions of the session that passed the
    check, each as it was created; all of them when no removal was
    confirmed. *)
Theorem members_only_added_or_removed (tr : list event) (a : App) :
  members (data (run tr a)) `sublist_of` members (data a) ++ created_members tr a
  ∧ (removes_nothing tr = true →
     members (data (run tr a)) = members (data a) ++ created_members tr a).
Proof.
  revert a. induction tr as [|e tr IH]; intros a.
  - cbn [created_members run foldl]. by rewrite app_nil_r.
  - change (run (e :: tr) a) with (run tr (handle e a)).
    destruct (IH (handle e a)) as [IHs IHe].
    pose proof (handle_members e a) as He. cbn [created_members].
    destruct (member_reading e a) as [now |] eqn:Er.
    + rewrite He, <- app_assoc in IHs, IHe. split; [exact IHs |].
      intros [_ Hr]%andb_true_iff. by apply IHe.
    + destruct He as [Hsub Heq]. split.
      * etrans; [exact IHs |]. by apply sublist_app.
      * intros [Hc%negb_true_iff Hr]%andb_true_iff.
        rewrite (IHe Hr). by rewrite (Heq Hc).
Qed.

(** A session with two submissions and no removal. *)
Lemma members_only_added_or_removed_witness :
  members (data (run same_tick (mount seed)))
  = [newMember t_0950 (mkMemberForm (u16 "Asha") [] [] []);
     newMember t_0950 (mkMemberForm (u16 "Ravi") [] [] [])].
Proof.
  apply (proj2 (members_only_added_or_removed same_tick (mount seed))).
  reflexivity.
Defined.

(** ** The three parts of the state do not meet *)

Lemma handle_header_part e a b :
  header_part a = header_part b →
  header_part (handle e a) = header_part (handle e b)
  ∧ (header_side e = false → header_part (handle e a) = header_part a).
Proof.
  unfold header_part. intros H. injection H as Hn Hd.
  destruct e; cbn [handle header_side]; simpl;
    rewrite ?Hn, ?Hd; try (split; [done | done]).
  - unfold addMember. by destruct (negb _), (negb _); simpl; rewrite ?Hn, ?Hd.
  - unfold submitIdea. by destruct (negb _), (negb _); simpl; rewrite ?Hn, ?Hd.
  - unfold removeMember. by destruct (negb _); simpl; rewrite ?Hn, ?Hd.
Qed.

Lemma handle_member_part e a b :
  member_part a = member_part b →
  member_part (handle e a) = member_part (handle e b)
  ∧ (member_side e = false → member_part (handle e a) = member_part a).
Proof.
  unfold member_part. intros H. injection H as Hm Hf.
  destruct e; cbn [handle member_side]; simpl;
    rewrite ?Hm, ?Hf; try (split; [done | done]).
  - unfold addMember. rewrite Hf. by destruct (negb _); simpl; rewrite ?Hm, ?Hf.
  - unfold submitIdea. by destruct (negb _), (negb _); simpl; rewrite ?Hm, ?Hf.
  - unfold removeMember. by destruct (negb _); simpl; rewrite ?Hm, ?Hf.
Qed.

Lemma handle_idea_part e a b :
  idea_part a = idea_part b →
  idea_part (handle e a) = idea_part (handle e b)
  ∧ (idea_side e = false → idea_part (handle e a) = idea_part a).
Proof.
  unfold idea_part. intros H. injection H as Hi Hf.
  destruct e; cbn [handle idea_side]; simpl;
    rewrite ?Hi, ?Hf; try (split; [done | done]).
  - unfold addMember. by destruct (negb _), (negb _); simpl; rewrite ?Hi, ?Hf.
  - unfold submitIdea. rewrite Hf. by destruct (negb _); simpl; rewrite ?Hi, ?Hf.
  - unfold removeMember. by destruct (negb _); simpl; rewrite ?Hi, ?Hf.
Qed.

(** A part that is stepped by every event, and left alone by the events
    that are not on its side, is the same after a session and after the
    events of the session that are on its side. *)
Lemma run_part {P : Type} (part : App → P) (side : event → bool) :
  (∀ e a b,
     part a = part b →
     part (handle e a) = part (handle e b)
     ∧ (side e = false → part (handle e a) = part a)) →
  ∀ tr a b,
    part a = part b →
    part (run tr a) = part (run (filter (fun e => side e = true) tr) b).
Proof.
  intros Hstep. induction tr as [|e tr IH]; intros a b Hab; [done |].
  change (run (e :: tr) a) with (run tr (handle e a)).
  rewrite filter_cons. destruct (decide (side e = true)) as [Hs | Hs].
  - change (run (e :: ?l) b) with (run l (handle e b)).
    apply IH. by apply Hstep.
  - apply IH. apply not_true_is_false in Hs.
    destruct (Hstep e a a eq_refl) as [_ H]. by rewrite (H Hs).
Qed.

(** X8: the header, the member side and the idea side do not influence
    one another.  After any session the name and the description are what
    the edits of the header alone give; the members and the member form
    what the events of the member form and the removals alone give; the
    ideas and the idea form what the events of the idea form and the
    status changes alone give. *)
Theorem parts_do_not_meet (tr : list event) (a : App) :
  header_part (run tr a)
  = header_part (run (filter (fun e => header_side e = true) tr) a)
  ∧ member_part (run tr a)
    = member_part (run (filter (fun e => member_side e = true) tr) a)
  ∧ idea_part (run tr a)
    = idea_part (run (filter (fun e => idea_side e = true) tr) a).
Proof.
  split; [| split].
  - by apply (run_part header_part header_side handle_header_part).
  - by apply (run_part member_part member_side handle_member_part).
  - by apply (run_part idea_part idea_side handle_idea_part).
Qed.

(** ** The action button *)

Lemma renders_action_button_false (i : Idea) :
  renders_action_button i = false ↔ i_status i = ActionTaken.
Proof.
  unfold renders_action_button. rewrite negb_false_iff.
  apply bool_decide_eq_true.
Qed.

(** X9: the action button of an idea is rendered as long as its status
    is not ["Action Taken"].  A new idea has the button; after
    [takeActionOnIdea id] no idea with the id [id] has it, so the handler
    cannot be started again for that id from the page; and, whatever
    events follow, an idea without the button stays without it. *)
Theorem action_button_goes (id : Z) (a : App) :
  (∀ now iso f, renders_action_button (newIdea now iso f) = true)
  ∧ (∀ i, i ∈ ideas (data (takeActionOnIdea id a)) → i_id i = id →
          renders_action_button i = false)
  ∧ (∀ tr k i,
       reverse (ideas (data a)) !! k = Some i →
       renders_action_button i = false →
       ∃ i', reverse (ideas (data (run tr a))) !! k = Some i'
             ∧ renders_action_button i' = false).
Proof.
  split; [done |]. split.
  - intros i Hi E. apply renders_action_button_false.
    rewrite ideas_takeActionOnIdea in Hi.
    apply list_elem_of_fmap in Hi as (i0 & -> & _).
    rewrite mark_id in E. by rewrite (mark_same id i0 E).
  - intros tr k i Hk Hr%renders_action_button_false.
    exists i. split; [by apply run_keeps_taken |].
    by apply renders_action_button_false.
Qed.

(** The idea of scenario C once marked: no button, and none after a later
    session. *)
Lemma action_button_goes_witness :
  (∀ i, i ∈ ideas (data gate_fixed) → i_id i = t_1000 →
        renders_action_button i = false)
  ∧ ∃ i', reverse (ideas (data (run advancing_clock gate_fixed))) !! 0%nat = Some i'
          ∧ renders_action_button i' = false.
Proof.
  split.
  - apply (proj1 (proj2 (action_button_goes t_1000 fix_gate))).
  - apply (proj2 (proj2 (action_button_goes t_1000 gate_fixed))
             advancing_clock 0%nat
             (mkIdea t_1000 (u16 "Fix gate") [] None ActionTaken
                (u16 "2024-05-01T10:00:00.000Z"))); reflexivity.
Defined.

(** ** The file inputs *)

Lemma setMemberForm_same (a : App) :
  setMemberForm (fun m => {| mf_name := mf_name m;
                             mf_position := mf_position m;
                             mf_work := mf_work m;
                             mf_photoDataUrl := mf_photoDataUrl m |}) a
  = a.
Proof. by destruct a as [d [n p w ph] f]. Qed.

(** X10: the first file input of the member form ([id="memberPhoto"])
    never changes the state, whatever file is chosen: the function it
    gives to [handlePhotoUpload] ignores the update that carries the
    file.  Given [setMemberForm] itself, [handlePhotoUpload] does what
    the second file input does, whose load is the event
    [MemberPhotoLoaded]. *)
Theorem first_file_input_changes_nothing (file : option jsstring) (a : App) :
  memberPhoto_onChange file a = a
  ∧ handlePhotoUpload file setMemberForm a = photo_onChange file a
  ∧ (∀ result, photo_onChange (Some result) a = handle (MemberPhotoLoaded result) a)
  ∧ (∀ result,
       handleIdeaImageUpload (Some result) a = handle (IdeaImageLoaded result) a)
  ∧ photo_onChange None a = a
  ∧ handleIdeaImageUpload None a = a.
Proof.
  split; [| by destruct file].
  destruct file as [result |]; [| done].
  apply setMemberForm_same.
Qed.

Lemma renders_or_null (s : jsstring) :
  match or_null s with Some url => truthy url | None => false end = truthy s.
Proof. by destruct s. Qed.

(** X11: a file loaded into a form reaches the list with the next
    accepted submission: the member added after a photo was loaded by the
    second file input has that data URL as its photo, and the list shows
    it; the idea submitted after an image was loaded has it as its image.
    (An empty result would be stored as [null] and not shown.)  After the
    submission the form holds no file any more. *)
Theorem loaded_file_reaches_the_list (url : jsstring) (now : Z) (iso : jsstring)
    (a : App) :
  (trim (mf_name (memberForm a)) ≠ [] →
   ∃ m,
     members (data (addMember now (photo_onChange (Some url) a)).1)
     = members (data a) ++ [m]
     ∧ m_photo m = or_null url
     ∧ renders_photo m = truthy url
     ∧ mf_photoDataUrl (memberForm (addMember now (photo_onChange (Some url) a)).1)
       = [])
  ∧ (trim (if_title (ideaForm a)) ≠ [] →
     ∃ i,
       ideas (data (submitIdea now iso (handleIdeaImageUpload (Some url) a)).1)
       = i :: ideas (data a)
       ∧ i_image i = or_null url
       ∧ renders_image i = truthy url
       ∧ if_imageDataUrl
           (ideaForm (submitIdea now iso (handleIdeaImageUpload (Some url) a)).1)
         = []).
Proof.
  split; intros Hn.
  - rewrite addMember_accepts by exact Hn.
    eexists. split; [reflexivity |]. split; [reflexivity |].
    split; [apply renders_or_null | reflexivity].
  - rewrite submitIdea_accepts by exact Hn.
    eexists. split; [reflexivity |]. split; [reflexivity |].
    split; [apply renders_or_null | reflexivity].
Qed.

(** A photo loaded for Asha before the form is sent. *)
Lemma loaded_file_reaches_the_list_witness :
  ∃ m,
    members (data (addMember t_0950
                     (photo_onChange (Some (u16 "data:image/png;base64,AA=="))
                        asha_pending)).1)
    = [m]
    ∧ m_photo m = Some (u16 "data:image/png;base64,AA==").
Proof.
  destruct (proj1 (loaded_file_reaches_the_list
                     (u16 "data:image/png;base64,AA==") t_0950 [] asha_pending))
    as (m & Hm & Hp & _).
  - change (trim (u16 "Asha") ≠ []). discriminate.
  - exists m. split; [exact Hm | exact Hp].
Defined.

(** ** The hook and the store *)

Lemma truthy_JSON_stringify (v : value) :
  plain v = true → truthy (JSON_stringify v) = true.
Proof.
  intros Hp. by destruct (JSON_stringify_head v Hp) as (c & tl & -> & _).
Qed.

Lemma init_reads_slot (key : jsstring) (initial v : value) (ls : Storage) :
  plain v = true → getItem ls key = Some (JSON_stringify v) →
  useLocalStorageState_init key initial ls = v.
Proof.
  intros Hp Hget. unfold useLocalStorageState_init.
  rewrite Hget, (truthy_JSON_stringify v Hp).
  by rewrite (JSON_parse_stringify v Hp).
Qed.



Lemma accepts_effect (key : jsstring) (v : value) (ls : Storage) :
  accepts (useLocalStorageState_effect key v ls) = accepts ls.
Proof.
  unfold useLocalStorageState_effect, setItem.
  by destruct (accepts ls key (JSON_stringify v)).
Qed.

Lemma effect_accepted (key : jsstring) (v : value) (ls : Storage) :
  accepts ls key (JSON_stringify v) = true →
  getItem (useLocalStorageState_effect key v ls) key = Some (JSON_stringify v).
Proof.
  intros Hacc. unfold useLocalStorageState_effect, setItem.
  rewrite Hacc. apply lookup_insert_eq.
Qed.

Lemma effect_refused (key : jsstring) (v : value) (ls : Storage) :
  accepts ls key (JSON_stringify v) = false →
  useLocalStorageState_effect key v ls = ls.
Proof.
  intros Hacc. unfold useLocalStorageState_effect, setItem. by rewrite Hacc.
Qed.

(** X13: the effect of the hook writes one slot.  The text under any
    other key is left as it was, so a hook on another key starts from the
    same state before and after the effect. *)
Theorem effect_writes_one_slot (key key' : jsstring) (v initial : value)
    (ls : Storage) :
  key' ≠ key →
  getItem (useLocalStorageState_effect key v ls) key' = getItem ls key'
  ∧ useLocalStorageState_init key' initial (useLocalStorageState_effect key v ls)
    = useLocalStorageState_init key' initial ls.
Proof.
  intros Hk.
  assert (getItem (useLocalStorageState_effect key v ls) key' = getItem ls key')
    as E.
  { unfold useLocalStorageState_effect, setItem.
    destruct (accepts ls key (JSON_stringify v)); [| done].
    unfold getItem. cbn [try_catch items]. by apply lookup_insert_ne. }
  split; [exact E |].
  unfold useLocalStorageState_init. by rewrite E.
Qed.

(** The slot of another version of the data is not touched by a save. *)
Lemma effect_writes_one_slot_witness :
  getItem (save small_document null_store) (u16 "hindi_ekta_shangh_data_v2")
  = getItem null_store (u16 "hindi_ekta_shangh_data_v2").
Proof.
  refine (proj1 (effect_writes_one_slot LS_KEY (u16 "hindi_ekta_shangh_data_v2")
                   (Document_to_value small_document) VNull null_store _)).
  discriminate.
Defined.

(** X14: the last write the store took is what a new mount starts from.
    Of two states written one after the other, the second is read back
    when the store takes it; when the store refuses it, the exception is
    swallowed and the first, older state is read back. *)
Theorem last_accepted_write_is_read (key : jsstring) (initial v1 v2 : value)
    (ls : Storage) :
  (plain v2 = true → accepts ls key (JSON_stringify v2) = true →
   useLocalStorageState_init key initial
     (useLocalStorageState_effect key v2 (useLocalStorageState_effect key v1 ls))
   = v2)
  ∧ (plain v1 = true → accepts ls key (JSON_stringify v1) = true →
     accepts ls key (JSON_stringify v2) = false →
     useLocalStorageState_init key initial
       (useLocalStorageState_effect key v2 (useLocalStorageState_effect key v1 ls))
     = v1).
Proof.
  split.
  - intros Hp Hacc. apply init_reads_slot; [exact Hp |].
    apply effect_accepted. by rewrite accepts_effect.
  - intros Hp Hacc1 Hacc2.
    rewrite (effect_refused key v2) by (by rewrite accepts_effect).
    apply init_reads_slot; [exact Hp |]. by apply effect_accepted.
Qed.

(** The seed fits the small store; the document with two members and an
    idea does not, and after its save the seed is what is loaded. *)
Lemma last_accepted_write_is_read_witness :
  load (save small_document (save seed tight_store)) = Document_to_value seed.
Proof.
  apply (proj2 (last_accepted_write_is_read LS_KEY (Document_to_value seed)
                  (Document_to_value seed) (Document_to_value small_document)
                  tight_store)).
  - apply plain_Document.
  - vm_compute. reflexivity.
  - vm_compute. reflexivity.
Defined.

(** ** The fields *)

(** X17: each field holds what was entered last, and the fields do not
    disturb one another: of two edits of the same field only the second
    counts, and two edits of different fields give the same state in
    either order.  The fields are the two of the header, the four of the
    member form and the three of the idea form, the files included. *)
Theorem field_edits (e1 e2 : event) (f1 f2 : nat) (a : App) :
  edited_field e1 = Some f1 → edited_field e2 = Some f2 →
  (f1 = f2 → handle e2 (handle e1 a) = handle e2 a)
  ∧ (f1 ≠ f2 → handle e2 (handle e1 a) = handle e1 (handle e2 a)).
Proof.
  destruct e1, e2; cbn [edited_field]; intros [= <-] [= <-];
    (split; intros H; [reflexivity || discriminate H | reflexivity || done]).
Qed.

(** A name typed twice; a name and a title typed in either order. *)
Lemma field_edits_witness :
  handle (EditMemberName (u16 "Asha")) (handle (EditMemberName (u16 "Ash")) (mount seed))
  = asha_pending
  ∧ handle (EditIdeaTitle (u16 " Fix gate "))
      (handle (EditMemberName (u16 " Asha ")) (mount seed))
    = handle (EditMemberName (u16 " Asha "))
        (handle (EditIdeaTitle (u16 " Fix gate ")) (mount seed)).
Proof.
  split.
  - apply (proj1 (field_edits (EditMemberName (u16 "Ash"))
                    (EditMemberName (u16 "Asha")) 2 2 (mount seed)
                    eq_refl eq_refl)).
    reflexivity.
  - apply (proj2 (field_edits (EditMemberName (u16 " Asha "))
                    (EditIdeaTitle (u16 " Fix gate ")) 2 6 (mount seed)
                    eq_refl eq_refl)).
    lia.
Defined.

(** ** The item buttons *)



(* ================================================================== *)
(** * The exported file *)
(* ================================================================== *)

(** ** White space between the tokens *)

Lemma skip_ws_app (ws s : jsstring) : white ws → skip_ws (ws ++ s) = skip_ws s.
Proof.
  induction 1 as [|c ws Hc _ IH]; [done |].
  cbn [app skip_ws]. by rewrite Hc.
Qed.

Lemma skip_ws_head (c : N) (s : jsstring) :
  is_json_ws c = false → skip_ws (c :: s) = c :: s.
Proof. intros Hc. cbn [skip_ws]. by rewrite Hc. Qed.

Lemma parse_value_ws (f : nat) (ws s : jsstring) :
  white ws → parse_value f (ws ++ s) = parse_value f s.
Proof.
  intros Hws. destruct f as [|f]; [done |].
  by rewrite !parse_value_S, skip_ws_app.
Qed.

Lemma parse_value_space (f : nat) (s : jsstring) :
  parse_value f (32%N :: s) = parse_value f s.
Proof. apply (parse_value_ws f [32%N] s). by repeat constructor. Qed.

Lemma parse_elements_ws (f : nat) (ws s : jsstring) (acc : list value) :
  white ws → parse_elements f (ws ++ s) acc = parse_elements f s acc.
Proof.
  intros Hws. destruct f as [|f]; [done |].
  by rewrite !parse_elements_S, parse_value_ws.
Qed.

Lemma parse_members_ws (f : nat) (ws s : jsstring) (acc : list (jsstring * value)) :
  white ws → parse_members f (ws ++ s) acc = parse_members f s acc.
Proof.
  intros Hws. destruct f as [|f]; [done |].
  by rewrite !parse_members_S_ws, skip_ws_app.
Qed.

Lemma white_line (indent : jsstring) : white indent → white (10%N :: indent).
Proof. intros H. by constructor. Qed.

Lemma white_app (s t : jsstring) : white s → white t → white (s ++ t).
Proof. intros Hs Ht. apply Forall_app. by split. Qed.

(** ** The text written with a gap is read back *)

Lemma SerializeJSONProperty_array (gap indent : jsstring) (x : value)
    (xs : list value) :
  SerializeJSONProperty gap indent (VArr (x :: xs))
  = 91%N :: (10%N :: indent ++ gap)
      ++ SerializeJSONProperty gap (indent ++ gap) x
      ++ more_elements_spaced gap (indent ++ gap) xs
      ++ (10%N :: indent) ++ [93%N].
Proof.
  cbn [SerializeJSONProperty app]. repeat f_equal.
  induction xs as [|y l IH]; [done |].
  cbn [more_elements_spaced]. by rewrite <- IH.
Qed.

Lemma SerializeJSONProperty_object (gap indent k : jsstring) (x : value)
    (kvs : list (jsstring * value)) :
  SerializeJSONProperty gap indent (VObj ((k, x) :: kvs))
  = 123%N :: (10%N :: indent ++ gap)
      ++ QuoteJSONString k
      ++ 58%N :: [32%N] ++ SerializeJSONProperty gap (indent ++ gap) x
      ++ more_members_spaced gap (indent ++ gap) kvs
      ++ (10%N :: indent) ++ [125%N].
Proof.
  cbn [SerializeJSONProperty app]. repeat f_equal.
  induction kvs as [|[k' y] l IH]; [done |].
  cbn [more_members_spaced]. by rewrite <- IH.
Qed.

(** The first code unit of the text is neither white space nor a closing
    bracket or brace. *)
Lemma SerializeJSONProperty_head (gap indent : jsstring) (v : value) :
  plain v = true →
  ∃ c tl, SerializeJSONProperty gap indent v = c :: tl
          ∧ is_json_ws c = false ∧ c ≠ 93%N ∧ c ≠ 125%N.
Proof.
  intros Hp.
  destruct v as [| b | z | m e | s | [|x xs] | [|[k x] kvs]];
    try apply (JSON_stringify_head _ Hp).
  - rewrite SerializeJSONProperty_array.
    eexists _, _. split; [reflexivity |]. by repeat split.
  - rewrite SerializeJSONProperty_object.
    eexists _, _. split; [reflexivity |]. by repeat split.
Qed.

Lemma parse_value_open_bracket_ws (f : nat) (ws s : jsstring) :
  white ws →
  (∃ c tl, s = c :: tl ∧ is_json_ws c = false ∧ c ≠ 93%N) →
  parse_value (S f) (91%N :: ws ++ s) = parse_elements f s [].
Proof.
  intros Hws (c & tl & -> & Hc & H93).
  rewrite parse_value_S, skip_ws_head by done.
  cbn [N.eqb Pos.eqb]. rewrite skip_ws_app, skip_ws_head by done.
  destruct (N.eqb_spec c 93); [done |].
  by apply parse_elements_ws.
Qed.

Lemma parse_value_open_brace_ws (f : nat) (ws s : jsstring) :
  white ws →
  parse_value (S f) (123%N :: ws ++ 34%N :: s) = parse_members f (34%N :: s) [].
Proof.
  intros Hws.
  rewrite parse_value_S, skip_ws_head by done.
  cbn [N.eqb Pos.eqb]. rewrite skip_ws_app, skip_ws_head by done.
  cbn [N.eqb Pos.eqb]. by apply parse_members_ws.
Qed.

Lemma parse_value_open_brace_line (f : nat) (indent gap s : jsstring) :
  white indent → white gap →
  parse_value (S f) (123%N :: 10%N :: indent ++ gap ++ 34%N :: s)
  = parse_members f (34%N :: s) [].
Proof.
  intros Hi Hg.
  rewrite <- (parse_value_open_brace_ws f (10%N :: indent ++ gap) s)
    by (apply white_line; by apply white_app).
  cbn [app]. by rewrite <- app_assoc.
Qed.

Lemma ends_number_comma (s : jsstring) : ends_number (44%N :: s).
Proof. by repeat split. Qed.

Lemma ends_number_line (s : jsstring) : ends_number (10%N :: s).
Proof. by repeat split. Qed.

Section Spaced.

Variable gap : jsstring.
Hypothesis gap_white : white gap.

(** The elements of an array, from one of them on. *)
Lemma parse_elements_spaced (xs : list value) :
  ∀ x acc f rest stepback,
    white stepback →
    Forall (reads_back_spaced gap) (x :: xs) →
    forallb plain (x :: xs) = true →
    foldr (fun x n => S (need x + n)) 0%nat (x :: xs) ≤ f →
    parse_elements f
      (SerializeJSONProperty gap (stepback ++ gap) x
         ++ more_elements_spaced gap (stepback ++ gap) xs
         ++ (10%N :: stepback) ++ 93%N :: rest) acc
    = Some (VArr (acc ++ x :: xs), rest).
Proof using gap_white.
  induction xs as [|y l IH]; intros x acc f rest stepback Hsb HP Hpl Hf.
  - apply Forall_cons in HP as [Hx _].
    cbn [forallb] in Hpl. apply andb_true_iff in Hpl as [Hpx _].
    cbn [foldr] in Hf. destruct f as [|f]; [lia |].
    rewrite parse_elements_S. cbn [more_elements_spaced].
    rewrite (app_nil_l (_ ++ 93%N :: rest)).
    rewrite (Hx (stepback ++ gap) f _ (white_app _ _ Hsb gap_white) Hpx)
      by (lia || apply ends_number_line).
    rewrite skip_ws_app by (by apply white_line).
    reflexivity.
  - apply Forall_cons in HP as [Hx HP].
    cbn [forallb] in Hpl. apply andb_true_iff in Hpl as [Hpx Hpl].
    cbn [foldr] in Hf. destruct f as [|f]; [lia |].
    rewrite parse_elements_S. cbn [more_elements_spaced].
    rewrite <- app_comm_cons.
    rewrite (Hx (stepback ++ gap) f _ (white_app _ _ Hsb gap_white) Hpx)
      by (lia || apply ends_number_comma).
    cbn [skip_ws is_json_ws N.eqb Pos.eqb orb].
    rewrite (app_comm_cons _ _ 10%N), <- !app_assoc.
    rewrite parse_elements_ws
      by (apply white_line; by apply white_app).
    rewrite (IH y (acc ++ [x]) f rest stepback Hsb HP Hpl) by (cbn [foldr]; lia).
    by rewrite <- app_assoc.
Qed.

(** The members of an object, from one of them on. *)
Lemma parse_members_spaced (kvs : list (jsstring * value)) :
  ∀ k x acc f rest stepback,
    white stepback →
    Forall (fun kv => reads_back_spaced gap kv.2) ((k, x) :: kvs) →
    forallb (fun kv => plain kv.2) ((k, x) :: kvs) = true →
    NoDup (acc.*1 ++ ((k, x) :: kvs).*1) →
    foldr (fun kv n => S (need kv.2 + n)) 0%nat ((k, x) :: kvs) ≤ f →
    parse_members f
      (QuoteJSONString k
         ++ 58%N :: [32%N] ++ SerializeJSONProperty gap (stepback ++ gap) x
         ++ more_members_spaced gap (stepback ++ gap) kvs
         ++ (10%N :: stepback) ++ 125%N :: rest) acc
    = Some (VObj (acc ++ (k, x) :: kvs), rest).
Proof using gap_white.
  induction kvs as [|[k' y] l IH];
    intros k x acc f rest stepback Hsb HP Hpl Hnd Hf.
  - apply Forall_cons in HP as [Hx _]. cbn [snd] in Hx.
    cbn [forallb snd] in Hpl. apply andb_true_iff in Hpl as [Hpx _].
    cbn [foldr snd] in Hf. destruct f as [|f]; [lia |].
    unfold QuoteJSONString. cbn [app]. rewrite parse_members_S.
    rewrite <- app_assoc. cbn [app].
    rewrite parse_chars_quote_units.
    cbn [skip_ws is_json_ws N.eqb Pos.eqb orb more_members_spaced].
    rewrite parse_value_space.
    rewrite app_nil_l.
    rewrite (Hx (stepback ++ gap) f _ (white_app _ _ Hsb gap_white) Hpx)
      by (lia || apply ends_number_line).
    rewrite (app_comm_cons stepback), skip_ws_app by (by apply white_line).
    cbn [skip_ws is_json_ws N.eqb Pos.eqb orb].
    rewrite set_property_fresh; [done |].
    apply NoDup_app in Hnd as (_ & Hnd & _).
    intros Hin. apply (Hnd k Hin). constructor.
  - apply Forall_cons in HP as [Hx HP]. cbn [snd] in Hx.
    cbn [forallb snd] in Hpl. apply andb_true_iff in Hpl as [Hpx Hpl].
    cbn [foldr snd] in Hf. destruct f as [|f]; [lia |].
    unfold QuoteJSONString at 1. cbn [app]. rewrite parse_members_S.
    rewrite <- app_assoc. cbn [app].
    rewrite parse_chars_quote_units.
    cbn [skip_ws is_json_ws N.eqb Pos.eqb orb more_members_spaced].
    rewrite parse_value_space.
    rewrite <- app_comm_cons.
    rewrite (Hx (stepback ++ gap) f _ (white_app _ _ Hsb gap_white) Hpx)
      by (lia || apply ends_number_comma).
    cbn [skip_ws is_json_ws N.eqb Pos.eqb orb].
    assert (k ∉ acc.*1) as Hk.
    { apply NoDup_app in Hnd as (_ & Hnd & _).
      intros Hin. apply (Hnd k Hin). constructor. }
    rewrite set_property_fresh by done.
    rewrite (app_comm_cons _ _ 10%N), <- !app_assoc.
    rewrite parse_members_ws
      by (apply white_line; by apply white_app).
    pose proof (IH k' y (acc ++ [(k, x)]) f rest stepback Hsb HP Hpl) as G.
    cbn [app] in G |- *.
    rewrite <- (app_assoc (SerializeJSONProperty _ _ _)). rewrite G.
    + by rewrite <- app_assoc.
    + rewrite fmap_app, <- app_assoc. exact Hnd.
    + cbn [foldr snd]. lia.
Qed.

Lemma parse_value_spaced (v : value) : reads_back_spaced gap v.
Proof using gap_white.
  induction v as [| b | z | m e | s | xs IH | kvs IH] using value_nested_ind;
    intros indent fuel rest Hind Hp Hf Hd;
    (destruct fuel as [|f]; [simpl in Hf; lia |]).
  - reflexivity.
  - by destruct b.
  - cbn [SerializeJSONProperty JSON_stringify].
    pose proof (parse_number_int z rest Hd) as Hn.
    destruct (int_to_string_head z) as (c & tl & E & Hc).
    rewrite E in Hn |- *. cbn [app] in Hn |- *.
    by rewrite parse_value_number.
  - discriminate.
  - cbn [SerializeJSONProperty JSON_stringify]. unfold QuoteJSONString.
    assoc_right.
    by rewrite parse_value_quote, parse_chars_quote_units.
  - destruct xs as [|x xs]; [reflexivity |].
    rewrite SerializeJSONProperty_array.
    rewrite <- app_comm_cons, <- !app_assoc.
    rewrite (app_assoc (10%N :: indent)).
    rewrite parse_value_open_bracket_ws.
    + rewrite <- app_assoc.
      apply (parse_elements_spaced xs x [] f rest indent Hind IH Hp).
      cbn [need] in Hf. lia.
    + apply white_line. by apply white_app.
    + destruct (SerializeJSONProperty_head gap (indent ++ gap) x)
        as (c & tl & E & Hws & H93 & _).
      { cbn [plain forallb] in Hp. by apply andb_true_iff in Hp as [? _]. }
      rewrite E. by eexists _, _.
  - destruct kvs as [|[k x] kvs]; [reflexivity |].
    cbn [plain] in Hp. apply andb_true_iff in Hp as [Hnd Hp].
    apply bool_decide_eq_true in Hnd.
    pose proof (parse_members_spaced kvs k x [] f rest indent Hind IH Hp Hnd) as G.
    revert G. rewrite SerializeJSONProperty_object. unfold QuoteJSONString.
    assoc_right. intros G.
    rewrite parse_value_open_brace_line by done.
    apply G. cbn [need] in Hf. lia.
Qed.

End Spaced.

(** [JSON.parse(JSON.stringify(v, null, space))] is [v], for a plain
    value [v] and any number [space]. *)
Lemma JSON_parse_stringify_space (space : nat) (v : value) :
  plain v = true → JSON_parse (JSON_stringify_space space v) = Ok v.
Proof.
  intros Hp. unfold JSON_stringify_space.
  assert (white (replicate (space `min` 10) 32%N)) as Hgap.
  { apply Forall_replicate. reflexivity. }
  destruct (replicate (space `min` 10) 32%N) as [|c gap];
    [by apply JSON_parse_stringify |].
  apply (JSON_parse_any_fuel _ (need v) v []); [| done].
  pose proof (parse_value_spaced (c :: gap) Hgap v [] (need v) []) as H.
  rewrite app_nil_r in H. apply H; [constructor | exact Hp | lia | exact I].
Qed.

Lemma truthy_stringify_space (space : nat) (v : value) :
  plain v = true → truthy (JSON_stringify_space space v) = true.
Proof.
  intros Hp. unfold JSON_stringify_space.
  destruct (replicate (space `min` 10) 32%N) as [|c gap].
  - by destruct (JSON_stringify_head v Hp) as (c & tl & -> & _).
  - by destruct (SerializeJSONProperty_head (c :: gap) [] v Hp) as (c' & tl & -> & _).
Qed.

(** X15: [exportData] leaves the state as it is and offers a file named
    [shang_data.json] whose text, given to [JSON.parse], is the document
    on the page: every member and idea, in order, with every field.  The
    line breaks and the indentation by two spaces that the export adds
    do not change what is read. *)
Theorem exportData_reads_back (a : App) :
  (exportData a).1 = a
  ∧ file_name (exportData a).2 = u16 "shang_data.json"
  ∧ JSON_parse (blob_text (exportData a).2) = Ok (Document_to_value (data a))
  ∧ match JSON_parse (blob_text (exportData a).2) with
    | Ok v => Document_of_value v
    | Throw _ => None
    end = Some (data a).
Proof.
  pose proof (JSON_parse_stringify_space 2 _ (plain_Document (data a))) as E.
  split; [done |]. split; [done |]. split; [exact E |].
  cbn [exportData snd blob_text]. rewrite E. apply Document_of_to_value.
Qed.

(** X16: an exported file is a backup of the slot: with its text in the
    slot of [localStorage], the component starts from the document that
    was exported, as it does after the save of that document. *)
Theorem export_restores_the_slot (a : App) (ls ls' : Storage) :
  getItem ls LS_KEY = Some (blob_text (exportData a).2) →
  accepts ls' LS_KEY (JSON_stringify (Document_to_value (data a))) = true →
  load ls = Document_to_value (data a)
  ∧ load ls = load (save (data a) ls').
Proof.
  intros Hget Hacc.
  assert (load ls = Document_to_value (data a)) as E.
  { unfold load, useLocalStorageState_init. rewrite Hget.
    cbn [exportData snd blob_text].
    rewrite (truthy_stringify_space 2 _ (plain_Document (data a))).
    by rewrite (JSON_parse_stringify_space 2 _ (plain_Document (data a))). }
  split; [exact E |]. rewrite E. symmetry.
  unfold load, useLocalStorageState_init.
  rewrite (save_accepted _ ls' Hacc), truthy_stringify_Document.
  by rewrite (JSON_parse_stringify _ (plain_Document (data a))).
Qed.

(** The export of the page after the session [advancing_clock], copied
    into the slot. *)
Lemma export_restores_the_slot_witness :
  load (restored_store (run advancing_clock (mount seed)))
  = Document_to_value small_document.
Proof.
  refine (proj1 (export_restores_the_slot (run advancing_clock (mount seed))
                   (restored_store (run advancing_clock (mount seed)))
                   roomy_store _ _)).
  - reflexivity.
  - vm_compute. reflexivity.
Defined.
